(** * libstoragemgmt: framed transport, plug-in interface, job polling

    A shallow embedding of
      - [lsm/lsm/transport.py]   (class [Transport]),
      - [lsm/lsm/_iplugin.py]    (the plug-in interface classes),
      - [plugin/hpsa/utils.py]   ([cmd_exec], [ExecError]),
      - [test/plugin_test.py]    ([TestProxy.wait_for_it]),
    together with the properties of the design document that concern them.

    Python 2 [str] values are byte strings; they are modelled as lists of
    8-bit characters.  Python integers are unbounded and modelled in [Z]. *)

From Stdlib Require Import ZArith Ascii String List Bool Lia.
Import ListNotations.
Open Scope Z_scope.
Set Warnings "-register-all".

(** ** Python values *)

Definition bytes := list ascii.

(** A byte-string literal. *)
Definition b (s : string) : bytes := list_ascii_of_string s.

(** [len(s)] *)
Definition len (s : bytes) : Z := Z.of_nat (length s).

(** The JSON-compatible tree that crosses the wire: what [json.dumps]
    accepts and [json.loads] returns.  A dictionary keeps its items in a
    list, looked up by [assoc]. *)
Inductive pyval : Type :=
| PNone
| PBool (v : bool)
| PInt (z : Z)
| PStr (s : bytes)
| PList (l : list pyval)
| PDict (d : list (bytes * pyval)).

Definition bytes_eqb (x y : bytes) : bool :=
  if list_eq_dec ascii_dec x y then true else false.

Fixpoint assoc (k : bytes) (d : list (bytes * pyval)) : option pyval :=
  match d with
  | [] => None
  | (k', v) :: d' => if bytes_eqb k k' then Some v else assoc k d'
  end.

(** Python truth value: [None], [False], zero and the empty containers
    are false, everything else is true. *)
Definition truthy (v : pyval) : bool :=
  match v with
  | PNone => false
  | PBool v => v
  | PInt z => negb (z =? 0)
  | PStr s => match s with [] => false | _ => true end
  | PList l => match l with [] => false | _ => true end
  | PDict d => match d with [] => false | _ => true end
  end.

(** ** Exceptions and outcomes *)

(** The exceptions the modelled code raises or lets through.
    [LsmError] and [SocketEOF] come from [common.py]: [LsmError] carries
    [code], [msg] and [data]; [ExecError] is the class of
    [plugin/hpsa/utils.py] with its four fields. *)
Inductive exn : Type :=
| SocketEOF
| ValueError (msg : bytes)
| KeyError (key : bytes)
| TypeError
| AssertionError
| LsmError (code : pyval) (msg : pyval) (data : pyval)
| ExecError (cmd : bytes) (errno : Z) (stdout stderr : bytes)
| Exception (msg : bytes).

(** What running a piece of code gives: a value, an exception, or
    [Diverge] when a loop was cut by its iteration budget. *)
Inductive outcome (A : Type) : Type :=
| Return (a : A)
| Raise (e : exn)
| Diverge.
Arguments Return {A} a.
Arguments Raise {A} e.
Arguments Diverge {A}.

(** ** State and exception monad

    [M St A] is a computation over a mutable state [St] (the socket of a
    [Transport], or the plug-in a [TestProxy] wraps) that may raise. *)
Definition M (St A : Type) : Type := St -> outcome A * St.

Definition ret {St A} (a : A) : M St A := fun s => (Return a, s).

Definition raise {St A} (e : exn) : M St A := fun s => (Raise e, s).

Definition diverge {St A} : M St A := fun s => (Diverge, s).

Definition bind {St A B} (m : M St A) (k : A -> M St B) : M St B :=
  fun s =>
    match m s with
    | (Return a, s') => k a s'
    | (Raise e, s') => (Raise e, s')
    | (Diverge, s') => (Diverge, s')
    end.

Declare Scope monad_scope.
Delimit Scope monad_scope with monad.
Notation "x <- m ;; k" := (bind m (fun x => k))
  (at level 61, m at next level, right associativity) : monad_scope.
Notation "m ;;; k" := (bind m (fun _ => k))
  (at level 61, right associativity) : monad_scope.
Open Scope monad_scope.

(** ** Python built-ins used by the code *)

Module Py.

(** Decimal digit of a value in [0, 9]. *)
Definition digit (d : Z) : ascii := ascii_of_nat (48 + Z.to_nat d).

(** The digits of a non-negative integer, most significant first; the
    budget bounds the number of digits produced. *)
Fixpoint digits (fuel : nat) (n : Z) (acc : bytes) : bytes :=
  match fuel with
  | O => acc
  | S fuel' =>
      let acc' := digit (n mod 10) :: acc in
      if n <? 10 then acc' else digits fuel' (n / 10) acc'
  end.

(** [repr(n)] for an [int]: a minus sign for negative numbers, then the
    decimal digits without leading zeros. *)
Definition repr (n : Z) : bytes :=
  if n <? 0
  then "-"%char :: digits (S (Z.to_nat (Z.log2 (- n)))) (- n) []
  else digits (S (Z.to_nat (Z.log2 n))) n [].

(** [s.zfill(width)]: zeros on the left up to [width]; a leading sign
    stays in front; the string is never truncated. *)
Definition str_zfill (s : bytes) (width : nat) : bytes :=
  let pad := repeat "0"%char (width - length s) in
  match s with
  | c :: rest =>
      if (Ascii.eqb c "+" || Ascii.eqb c "-")%bool
      then c :: pad ++ rest
      else pad ++ s
  | [] => pad
  end.

(** [string.zfill(x, width)] applied to an integer: [repr(x).zfill(width)]. *)
Definition zfill (x : Z) (width : nat) : bytes := str_zfill (repr x) width.

(** [c.isspace()] in the C locale. *)
Definition isspace (c : ascii) : bool :=
  let n := nat_of_ascii c in
  ((9 <=? n) && (n <=? 13) || (n =? 32))%nat%bool.

Definition isdigit (c : ascii) : bool :=
  let n := nat_of_ascii c in ((48 <=? n) && (n <=? 57))%nat.

Fixpoint lstrip (s : bytes) : bytes :=
  match s with
  | c :: rest => if isspace c then lstrip rest else s
  | [] => []
  end.

Definition rstrip (s : bytes) : bytes := rev (lstrip (rev s)).

(** [s.strip()] *)
Definition strip (s : bytes) : bytes := rstrip (lstrip s).

Definition digit_val (c : ascii) : Z := Z.of_nat (nat_of_ascii c) - 48.

(** Value of a string of decimal digits, read left to right. *)
Definition digits_val (s : bytes) : Z :=
  fold_left (fun acc c => acc * 10 + digit_val c) s 0.

Definition unsigned (s : bytes) : option Z :=
  match s with
  | [] => None
  | _ => if forallb isdigit s then Some (digits_val s) else None
  end.

(** [int(s)] for a [str]: surrounding white space is ignored, then an
    optional sign and at least one decimal digit; anything else is a
    [ValueError] ([None] here). *)
Definition int (s : bytes) : option Z :=
  match strip s with
  | c :: rest =>
      if Ascii.eqb c "-" then option_map Z.opp (unsigned rest)
      else if Ascii.eqb c "+" then unsigned rest
      else unsigned (c :: rest)
  | [] => None
  end.

(** [sep.join(parts)] *)
Fixpoint join (sep : bytes) (parts : list bytes) : bytes :=
  match parts with
  | [] => []
  | [p] => p
  | p :: rest => p ++ sep ++ join sep rest
  end.

End Py.

(** ** The framed transport ([lsm/lsm/transport.py]) *)

Module Transport.

(** The socket [self.s] of a [Transport], seen from one end.  [inbound]
    holds what the peer sent and this end has not read yet, as the
    segments in which it arrives; when no segment is left the peer has
    closed its end.  [sent] lists the buffers handed to [sendall], oldest
    first. *)
Record socket : Type := Socket {
  inbound : list bytes;
  sent : list bytes
}.

(** [HDR_LEN = 10] *)
Definition HDR_LEN : nat := 10.

(** What [recv(n)] takes out of the pending segments: at most [n] bytes
    of the first non-empty one; nothing at all only when none is left. *)
Fixpoint recv_from (n : nat) (segs : list bytes) : bytes * list bytes :=
  match segs with
  | [] => ([], [])
  | [] :: rest => recv_from n rest
  | seg :: rest =>
      (firstn n seg,
       match skipn n seg with
       | [] => rest
       | seg' => seg' :: rest
       end)
  end.

(** [self.s.recv(n)] *)
Definition recv (n : Z) : M socket bytes :=
  fun s =>
    let (r, segs) := recv_from (Z.to_nat n) (inbound s) in
    (Return r, Socket segs (sent s)).

(** [self.s.sendall(data)] *)
Definition sendall (data : bytes) : M socket unit :=
  fun s => (Return tt, Socket (inbound s) (sent s ++ [data])).

(** The [while len(data) < l] loop of [__readAll]; [fuel] bounds the
    number of iterations. *)
Fixpoint readAll_loop (fuel : nat) (l : Z) (data : bytes) : M socket bytes :=
  if len data <? l then
    match fuel with
    | O => diverge
    | S fuel' =>
        r <- recv (l - len data) ;;
        match r with
        | [] => raise SocketEOF
        | _ => readAll_loop fuel' l (data ++ r)
        end
    end
  else ret data.

(** [Transport.__readAll]: every iteration adds at least one byte, so [l]
    iterations are enough (see [readAll_loop_total]). *)
Definition readAll (l : Z) : M socket bytes :=
  if l <? 1 then raise (ValueError (b "Trying to read less than 1 byte!"))
  else readAll_loop (Z.to_nat l) l [].

(** [Transport.__sendMsg]; [None] is Python's [None]. *)
Definition sendMsg (msg : option bytes) : M socket unit :=
  match msg with
  | None => raise (ValueError (b "Msg argument empty"))
  | Some m =>
      if len m <? 1 then raise (ValueError (b "Msg argument empty"))
      else sendall (Py.zfill (len m) HDR_LEN ++ m)
  end.

(** The frame [__sendMsg] hands to [sendall] for a payload: the header
    and the payload in one buffer. *)
Definition frame_of (payload : bytes) : bytes :=
  Py.zfill (len payload) HDR_LEN ++ payload.

(** [int(l)] in [__recvMsg]: a header that is no integer literal raises
    [ValueError]. *)
Definition int_of_header (l : bytes) : M socket Z :=
  match Py.int l with
  | Some n => ret n
  | None => raise (ValueError (b "invalid literal for int() with base 10"))
  end.

(** [Transport.__recvMsg] *)
Definition recvMsg : M socket bytes :=
  l <- readAll (Z.of_nat HDR_LEN) ;;
  n <- int_of_header l ;;
  readAll n.

(** [d[key]] on a decoded message; only a dictionary can be subscripted
    with a string. *)
Definition getitem (v : pyval) (key : bytes) : M socket pyval :=
  match v with
  | PDict d =>
      match assoc key d with
      | Some x => ret x
      | None => raise (KeyError key)
      end
  | _ => raise TypeError
  end.

(** Modelled from the spec: the constructor of [LsmError] ([common.py], not
    among the sources), called as [LsmError( **e)]: the failure carries the
    [code], [message] and optional [data] of the error object. *)
Definition LsmError_of (e : pyval) : exn :=
  match e with
  | PDict d =>
      match assoc (b "code") d, assoc (b "message") d with
      | Some c, Some m =>
          LsmError c m (match assoc (b "data") d with Some x => x | None => PNone end)
      | _, _ => TypeError
      end
  | _ => TypeError
  end.

(** [v == n] for an integer constant [n] other than 0 and 1: only the
    integer [n] compares equal to it. *)
Definition eq_int (v : pyval) (n : Z) : bool :=
  match v with
  | PInt z => z =? n
  | _ => false
  end.

(** The [assert] statement. *)
Definition assert_ (cond : bool) : M socket unit :=
  if cond then ret tt else raise AssertionError.

Section Codec.

(** The JSON codec, [json.dumps(_, cls=DataEncoder)] and
    [json.loads(_, cls=DataDecoder)]: the standard library's [json] with
    the encoder classes of [data.py], which is not among the sources.
    [loads] gives [None] where [json.loads] raises [ValueError]. *)
Variable dumps : pyval -> bytes.
Variable loads : bytes -> option pyval.

Definition json_loads (data : bytes) : M socket pyval :=
  match loads data with
  | Some v => ret v
  | None => raise (ValueError (b "No JSON object could be decoded"))
  end.

(** The dictionary built by [send_req]. *)
Definition request (method args : pyval) : pyval :=
  PDict [(b "method", method); (b "id", PInt 100); (b "params", args)].

(** [Transport.send_req] *)
Definition send_req (method args : pyval) : M socket unit :=
  let msg := request method args in
  let data := dumps msg in
  sendMsg (Some data).

(** [Transport.read_req]; without a [return] the method gives [None]. *)
Definition read_req : M socket pyval :=
  data <- recvMsg ;;
  if 0 <? len data then json_loads data else ret PNone.

(** The dictionary built by [send_error]. *)
Definition fault (id error_code msg data : pyval) : pyval :=
  PDict [(b "id", id);
         (b "error", PDict [(b "code", error_code);
                            (b "message", msg);
                            (b "data", data)])].

(** [Transport.send_error]; [data] defaults to [None]. *)
Definition send_error (id error_code msg data : pyval) : M socket unit :=
  let e := fault id error_code msg data in
  sendMsg (Some (dumps e)).

(** The dictionary built by [send_resp]. *)
Definition response (result id : pyval) : pyval :=
  PDict [(b "id", id); (b "result", result)].

(** [Transport.send_resp]; [id] defaults to [100]. *)
Definition send_resp (result id : pyval) : M socket unit :=
  let r := response result id in
  sendMsg (Some (dumps r)).

(** [Transport.read_resp].  ['result' in resp] and the subscripts that
    follow raise [TypeError] on everything that is not a dictionary. *)
Definition read_resp : M socket (pyval * pyval) :=
  data <- recvMsg ;;
  resp <- json_loads data ;;
  match resp with
  | PDict d =>
      match assoc (b "result") d with
      | Some _ =>
          r <- getitem resp (b "result") ;;
          i <- getitem resp (b "id") ;;
          ret (r, i)
      | None =>
          e <- getitem resp (b "error") ;;
          raise (LsmError_of e)
      end
  | _ => raise TypeError
  end.

(** [Transport.rpc] *)
Definition rpc (method args : pyval) : M socket pyval :=
  send_req method args ;;;
  p <- read_resp ;;
  let (reply, id) := p in
  assert_ (eq_int id 100) ;;;
  ret reply.

(** The three readers end with [SocketEOF] on a socket. *)
Definition ends_with_eof (s : socket) : Prop :=
  fst (recvMsg s) = Raise SocketEOF /\
  fst (read_req s) = Raise SocketEOF /\
  fst (read_resp s) = Raise SocketEOF.

End Codec.

End Transport.

(** ** The plug-in interface ([lsm/lsm/_iplugin.py]) *)

Module IPlugin.

(** The methods that [IStorageAreaNetwork] defines, in source order. *)
Inductive san_method : Type :=
| pool_create | pool_create_from_disks | pool_create_from_volumes
| pool_create_from_pool | volumes | initiators | volume_create
| volume_delete | volume_resize | volume_replicate
| volume_replicate_range_block_size | volume_replicate_range
| volume_online | volume_offline | iscsi_chap_auth | initiator_grant
| initiator_revoke | access_group_grant | access_group_revoke
| access_group_list | access_group_create | access_group_del
| access_group_add_initiator | access_group_del_initiator
| volumes_accessible_by_access_group | access_groups_granted_to_volume
| volume_child_dependency | volume_child_dependency_rm
| volumes_accessible_by_initiator | initiators_granted_to_volume.

(** The methods that [INetworkAttachedStorage] defines. *)
Inductive nas_method : Type :=
| fs | fs_delete | fs_resize | fs_create | fs_clone | file_clone
| fs_snapshots | fs_snapshot_create | fs_snapshot_delete
| fs_snapshot_revert | fs_child_dependency | fs_child_dependency_rm.

(** The methods that [INfs] defines itself; it inherits the others from
    [INetworkAttachedStorage]. *)
Inductive nfs_own_method : Type :=
| export_auth | exports | export_fs | export_remove.

Inductive nfs_method : Type :=
| NfsOwn (m : nfs_own_method)
| NfsInherited (m : nas_method).

Section Defaults.

(** [ErrorNumber.NO_SUPPORT], a constant of [common.py]. *)
Variable NO_SUPPORT : Z.

(** [raise LsmError(ErrorNumber.NO_SUPPORT, "Not supported")]; the
    third field, [data], keeps its default [None]. *)
Definition raise_not_supported : outcome pyval :=
  Raise (LsmError (PInt NO_SUPPORT) (PStr (b "Not supported")) PNone).

(** [pass]: the method falls off its end and gives [None]. *)
Definition pass : outcome pyval := Return PNone.

(** The bodies of the methods of [IStorageAreaNetwork], one line per
    method.  No body reads a parameter, so the arguments of a call, kept
    in [args], have no influence. *)
Definition IStorageAreaNetwork (m : san_method) (args : list pyval)
  : outcome pyval :=
  match m with
  | pool_create => raise_not_supported
  | pool_create_from_disks => raise_not_supported
  | pool_create_from_volumes => raise_not_supported
  | pool_create_from_pool => raise_not_supported
  | volumes => raise_not_supported
  | initiators => raise_not_supported
  | volume_create => raise_not_supported
  | volume_delete => raise_not_supported
  | volume_resize => raise_not_supported
  | volume_replicate => raise_not_supported
  | volume_replicate_range_block_size => raise_not_supported
  | volume_replicate_range => raise_not_supported
  | volume_online => raise_not_supported
  | volume_offline => raise_not_supported
  | iscsi_chap_auth => raise_not_supported
  | initiator_grant => raise_not_supported
  | initiator_revoke => raise_not_supported
  | access_group_grant => raise_not_supported
  | access_group_revoke => raise_not_supported
  | access_group_list => raise_not_supported
  | access_group_create => raise_not_supported
  | access_group_del => raise_not_supported
  | access_group_add_initiator => raise_not_supported
  | access_group_del_initiator => raise_not_supported
  | volumes_accessible_by_access_group => raise_not_supported
  | access_groups_granted_to_volume => raise_not_supported
  | volume_child_dependency => raise_not_supported
  | volume_child_dependency_rm => raise_not_supported
  | volumes_accessible_by_initiator => raise_not_supported
  | initiators_granted_to_volume => raise_not_supported
  end.

(** The bodies of the methods of [INetworkAttachedStorage]; the body of
    [fs] is [pass]. *)
Definition INetworkAttachedStorage (m : nas_method) (args : list pyval)
  : outcome pyval :=
  match m with
  | fs => pass
  | fs_delete => raise_not_supported
  | fs_resize => raise_not_supported
  | fs_create => raise_not_supported
  | fs_clone => raise_not_supported
  | file_clone => raise_not_supported
  | fs_snapshots => raise_not_supported
  | fs_snapshot_create => raise_not_supported
  | fs_snapshot_delete => raise_not_supported
  | fs_snapshot_revert => raise_not_supported
  | fs_child_dependency => raise_not_supported
  | fs_child_dependency_rm => raise_not_supported
  end.

(** [INfs(INetworkAttachedStorage)]: its own four methods, and the
    inherited ones resolved in the base class. *)
Definition INfs (m : nfs_method) (args : list pyval) : outcome pyval :=
  match m with
  | NfsOwn export_auth => raise_not_supported
  | NfsOwn exports => raise_not_supported
  | NfsOwn export_fs => raise_not_supported
  | NfsOwn export_remove => raise_not_supported
  | NfsInherited m' => INetworkAttachedStorage m' args
  end.

End Defaults.

End IPlugin.

(** ** Command execution of the hpsa plug-in ([plugin/hpsa/utils.py]) *)

Module Hpsa.

(** What a finished child process leaves: the lines of its standard
    output and standard error, as iterating over the two pipes gives
    them, and the exit status returned by [wait()]. *)
Record process : Type := Process {
  stdout : list bytes;
  stderr : list bytes;
  returncode : Z
}.

Section Exec.

(** [subprocess.Popen(cmds, ...)] run to completion; it raises when the
    command cannot be started. *)
Variable Popen : list bytes -> outcome process.

(** [cmd_exec] *)
Definition cmd_exec (cmds : list bytes) : outcome bytes :=
  match Popen cmds with
  | Return cmd_popen =>
      let str_stdout := Py.strip (Py.join [] (stdout cmd_popen)) in
      let str_stderr := Py.strip (Py.join [] (stderr cmd_popen)) in
      let errno := returncode cmd_popen in
      if negb (errno =? 0)
      then Raise (ExecError (Py.join (b " ") cmds) errno str_stdout str_stderr)
      else Return str_stdout
  | Raise e => Raise e
  | Diverge => Diverge
  end.

End Exec.

End Hpsa.

(** ** The polling loop of the test proxy ([test/plugin_test.py]) *)

Module PluginTest.

(** The calls [wait_for_it] makes, as the wrapped client sees them. *)
Inductive call : Type :=
| JobStatus (job : pyval)
| JobFree (job : pyval)
| Sleep (ms : Z).

(** The wrapped client [self.o]: how many [job_status] calls it has
    answered, and every call made so far, oldest first. *)
Record client : Type := Client {
  polls : nat;
  calls : list call
}.

Section Proxy.

(** [lsm.JobStatus.INPROGRESS] and [lsm.JobStatus.COMPLETE], integer
    constants of the [lsm] package. *)
Variable INPROGRESS COMPLETE : Z.

(** The plug-in behind the client: its answer to the [k]-th [job_status]
    call for a job, as the triple (status, percent, item) or a raised
    failure, and its answer to [job_free]. *)
Variable status_reply : pyval -> nat -> outcome (Z * pyval * pyval).
Variable free_reply : pyval -> outcome pyval.

(** [self.job_status(job)]; the proxy passes the call and its result
    through, [job_status] and [job_free] not being in [async_calls]. *)
Definition job_status (job : pyval) : M client (Z * pyval * pyval) :=
  fun c =>
    (status_reply job (polls c),
     Client (S (polls c)) (calls c ++ [JobStatus job])).

(** [self.job_free(job)] *)
Definition job_free (job : pyval) : M client pyval :=
  fun c => (free_reply job, Client (polls c) (calls c ++ [JobFree job])).

(** [time.sleep(0.25)], in milliseconds. *)
Definition sleep (ms : Z) : M client unit :=
  fun c => (Return tt, Client (polls c) (calls c ++ [Sleep ms])).

(** The [while True] loop of [wait_for_it]; [fuel] bounds the number of
    iterations. *)
Fixpoint wait_loop (fuel : nat) (msg : bytes) (job : pyval) : M client pyval :=
  match fuel with
  | O => diverge
  | S fuel' =>
      r <- job_status job ;;
      let '(s, percent, i) := r in
      if s =? INPROGRESS then
        sleep 250 ;;; wait_loop fuel' msg job
      else if s =? COMPLETE then
        job_free job ;;; ret i
      else
        raise (Exception (msg ++ b " job error code= " ++ Py.repr s))
  end.

(** [TestProxy.wait_for_it] *)
Definition wait_for_it (fuel : nat) (msg : bytes) (job item : pyval)
  : M client pyval :=
  if negb (truthy job) then ret item
  else wait_loop fuel msg job.

(** The plug-in reports the job in progress in its next [n] answers,
    counted from the answer number [first]. *)
Definition in_progress_for (job : pyval) (first n : nat) : Prop :=
  forall k, (k < n)%nat ->
  exists percent i,
    status_reply job (first + k) = Return (INPROGRESS, percent, i).

End Proxy.

(** The calls of [n] polling rounds that find the job in progress: a
    [job_status] call and a pause each. *)
Definition polling_calls (job : pyval) (n : nat) : list call :=
  concat (repeat [JobStatus job; Sleep 250] n).

Definition is_job_free (c : call) : bool :=
  match c with JobFree _ => true | _ => false end.

Definition is_job_status (c : call) : bool :=
  match c with JobStatus _ => true | _ => false end.

(** How many [job_free] and how many [job_status] calls a trace holds. *)
Definition count_job_free (l : list call) : nat :=
  length (filter is_job_free l).

Definition count_job_status (l : list call) : nat :=
  length (filter is_job_status l).

End PluginTest.

(** ** A JSON codec

    Modelled from the spec: the wire codec ([data.py] with the standard
    [json] module, not among the sources), "encode(value) -> bytes,
    decode(bytes) -> value", a pure transform over plain scalars, ordered
    sequences and string-keyed mappings.  The writer follows the default
    layout of [json.dumps] (items separated by a comma and a space, keys
    by a colon and a space); quotes and backslashes in strings are
    escaped with a backslash.  It instantiates the codec of
    [Transport] on concrete messages. *)

Module Json.

(** The double quote character. *)
Definition dquote : ascii := "034"%char.

Definition quote (s : bytes) : bytes :=
  dquote ::
  flat_map (fun c =>
              if (Ascii.eqb c dquote || Ascii.eqb c "\")%bool
              then ["\"%char; c] else [c]) s
  ++ [dquote].

Fixpoint dumps (v : pyval) : bytes :=
  match v with
  | PNone => b "null"
  | PBool true => b "true"
  | PBool false => b "false"
  | PInt z => Py.repr z
  | PStr s => quote s
  | PList l => b "[" ++ Py.join (b ", ") (map dumps l) ++ b "]"
  | PDict d =>
      b "{" ++
      Py.join (b ", ")
        (map (fun kv => quote (fst kv) ++ b ": " ++ dumps (snd kv)) d)
      ++ b "}"
  end.

(** The characters of a string literal up to its closing quote, and what
    follows it. *)
Fixpoint read_string (s : bytes) (acc : bytes) : option (bytes * bytes) :=
  match s with
  | [] => None
  | c :: rest =>
      if Ascii.eqb c dquote then Some (rev acc, rest)
      else if Ascii.eqb c "\" then
        match rest with
        | c' :: rest' => read_string rest' (c' :: acc)
        | [] => None
        end
      else read_string rest (c :: acc)
  end.

Fixpoint span_digits (s : bytes) : bytes * bytes :=
  match s with
  | c :: rest =>
      if Py.isdigit c
      then let (ds, r) := span_digits rest in (c :: ds, r)
      else ([], s)
  | [] => ([], [])
  end.

Definition read_int (s : bytes) : option (pyval * bytes) :=
  match s with
  | c :: rest =>
      if Ascii.eqb c "-" then
        let (ds, r) := span_digits rest in
        option_map (fun n => (PInt (- n), r)) (Py.unsigned ds)
      else
        let (ds, r) := span_digits s in
        option_map (fun n => (PInt n, r)) (Py.unsigned ds)
  | [] => None
  end.

Definition strip_prefix (p s : bytes) : option bytes :=
  if bytes_eqb (firstn (length p) s) p then Some (skipn (length p) s) else None.

(** Recursive-descent reader; [fuel] bounds the nesting and the number
    of items read. *)
Fixpoint read_value (fuel : nat) (s : bytes) : option (pyval * bytes) :=
  match fuel with
  | O => None
  | S fuel' =>
      match Py.lstrip s with
      | [] => None
      | c :: rest =>
          if Ascii.eqb c "n" then
            option_map (pair PNone) (strip_prefix (b "ull") rest)
          else if Ascii.eqb c "t" then
            option_map (pair (PBool true)) (strip_prefix (b "rue") rest)
          else if Ascii.eqb c "f" then
            option_map (pair (PBool false)) (strip_prefix (b "alse") rest)
          else if Ascii.eqb c dquote then
            option_map (fun p => (PStr (fst p), snd p)) (read_string rest [])
          else if Ascii.eqb c "[" then
            match Py.lstrip rest with
            | c' :: rest' =>
                if Ascii.eqb c' "]" then Some (PList [], rest')
                else read_items fuel' (c' :: rest') []
            | [] => None
            end
          else if Ascii.eqb c "{" then
            match Py.lstrip rest with
            | c' :: rest' =>
                if Ascii.eqb c' "}" then Some (PDict [], rest')
                else read_pairs fuel' (c' :: rest') []
            | [] => None
            end
          else read_int (c :: rest)
      end
  end
with read_items (fuel : nat) (s : bytes) (acc : list pyval)
  : option (pyval * bytes) :=
  match fuel with
  | O => None
  | S fuel' =>
      match read_value fuel' s with
      | Some (v, rest) =>
          match Py.lstrip rest with
          | c :: rest' =>
              if Ascii.eqb c "," then read_items fuel' rest' (v :: acc)
              else if Ascii.eqb c "]" then Some (PList (rev (v :: acc)), rest')
              else None
          | [] => None
          end
      | None => None
      end
  end
with read_pairs (fuel : nat) (s : bytes) (acc : list (bytes * pyval))
  : option (pyval * bytes) :=
  match fuel with
  | O => None
  | S fuel' =>
      match Py.lstrip s with
      | q :: s1 =>
          if Ascii.eqb q dquote then
            match read_string s1 [] with
            | Some (k, s2) =>
                match Py.lstrip s2 with
                | colon :: s3 =>
                    if Ascii.eqb colon ":" then
                      match read_value fuel' s3 with
                      | Some (v, rest) =>
                          match Py.lstrip rest with
                          | c :: rest' =>
                              if Ascii.eqb c ","
                              then read_pairs fuel' rest' ((k, v) :: acc)
                              else if Ascii.eqb c "}"
                              then Some (PDict (rev ((k, v) :: acc)), rest')
                              else None
                          | [] => None
                          end
                      | None => None
                      end
                    else None
                | [] => None
                end
            | None => None
            end
          else None
      | [] => None
      end
  end.

Definition loads (s : bytes) : option pyval :=
  match read_value (S (length s)) s with
  | Some (v, rest) =>
      match Py.lstrip rest with
      | [] => Some v
      | _ => None
      end
  | None => None
  end.

End Json.

(** ** Sequences of frames on one connection *)

Module Session.

Import Transport.

(** Payloads the frame format can carry: one to 9999999999 bytes. *)
Definition framable (m : bytes) : Prop := 1 <= len m < 10 ^ 10.

(** One [__sendMsg] call per message, in order. *)
Fixpoint send_each (msgs : list bytes) : M socket unit :=
  match msgs with
  | [] => ret tt
  | m :: rest => sendMsg (Some m) ;;; send_each rest
  end.

(** [n] successive [__recvMsg] calls, collecting what they return. *)
Fixpoint recv_each (n : nat) : M socket (list bytes) :=
  match n with
  | O => ret []
  | S n' =>
      m <- recvMsg ;;
      rest <- recv_each n' ;;
      ret (m :: rest)
  end.

End Session.

(** ** The echo server of the transport test ([server] in [transport.py]) *)

Module EchoServer.

Import Transport.

(** The server's end of the socket pair, and whether [s.close()] has
    been called on it. *)
Record endpoint : Type := Endpoint {
  conn : socket;
  closed : bool
}.

(** A [Transport] method called on the server's connection. *)
Definition on_conn {A} (m : M socket A) : M endpoint A :=
  fun e => let (o, s') := m (conn e) in (o, Endpoint s' (closed e)).

(** [s.close()] *)
Definition close : M endpoint unit :=
  fun e => (Return tt, Endpoint (conn e) true).

(** [try: body finally: fin]: [fin] runs whether [body] returns or
    raises, and the outcome of [body] stands unless [fin] raises; a
    [body] that does not end never reaches [fin]. *)
Definition try_finally {St A} (body : M St A) (fin : M St unit) : M St A :=
  fun s =>
    match body s with
    | (Diverge, s') => (Diverge, s')
    | (o, s') =>
        match fin s' with
        | (Return _, s'') => (o, s'')
        | (Raise e, s'') => (Raise e, s'')
        | (Diverge, s'') => (Diverge, s'')
        end
    end.

(** [v == s] for a string constant [s]: only a string with the same
    characters compares equal. *)
Definition str_eq (v : pyval) (s : bytes) : bool :=
  match v with
  | PStr x => bytes_eqb x s
  | _ => false
  end.

Section Codec.

Variable dumps : pyval -> bytes.
Variable loads : bytes -> option pyval.

(** The [while] loop of [server], entered with the request just read;
    it gives back the request that ended it.  [fuel] bounds the number
    of iterations. *)
Fixpoint serve_loop (fuel : nat) (msg : pyval) : M socket pyval :=
  match fuel with
  | O => diverge
  | S fuel' =>
      m <- getitem msg (b "method") ;;
      if negb (str_eq m (b "done")) then
        m' <- getitem msg (b "method") ;;
        (if str_eq m' (b "error") then
           i <- getitem msg (b "id") ;;
           p <- getitem msg (b "params") ;;
           c <- getitem p (b "errorcode") ;;
           p' <- getitem msg (b "params") ;;
           e <- getitem p' (b "errormsg") ;;
           send_error dumps i c e PNone
         else
           p <- getitem msg (b "params") ;;
           send_resp dumps p (PInt 100)) ;;;
        msg' <- read_req loads ;;
        serve_loop fuel' msg'
      else ret msg
  end.

(** [server(s)]: the first request is read outside the [try]. *)
Definition server (fuel : nat) : M endpoint unit :=
  msg <- on_conn (read_req loads) ;;
  try_finally
    (on_conn (last <- serve_loop fuel msg ;;
              p <- getitem last (b "params") ;;
              send_resp dumps p (PInt 100)))
    close.

End Codec.

(** What the echo server answers to [send_req(method, args)]: a fault
    built from the parameters for the method ['error'], the parameters
    themselves otherwise; nothing when an ['error'] request lacks the two
    parameters. *)
Definition echo_reply (method : bytes) (args : pyval) : option pyval :=
  if bytes_eqb method (b "error") then
    match args with
    | PDict d =>
        match assoc (b "errorcode") d, assoc (b "errormsg") d with
        | Some c, Some e => Some (fault (PInt 100) c e PNone)
        | _, _ => None
        end
    | _ => None
    end
  else Some (response args (PInt 100)).

Section Script.

Variable dumps : pyval -> bytes.
Variable loads : bytes -> option pyval.

(** The frame of the request [send_req(method, args)] writes. *)
Definition request_frame (q : bytes * pyval) : bytes :=
  frame_of (dumps (request (PStr (fst q)) (snd q))).

(** A request the server can read: the codec carries it unchanged, in
    one to 9999999999 bytes. *)
Definition readable (q : bytes * pyval) : Prop :=
  let msg := request (PStr (fst q)) (snd q) in
  loads (dumps msg) = Some msg /\ 1 <= len (dumps msg) < 10 ^ 10.

(** A request the server answers and goes on after: not ['done'], with
    an answer whose encoding is not empty. *)
Definition answered (q : bytes * pyval) : Prop :=
  fst q <> b "done" /\
  exists r, echo_reply (fst q) (snd q) = Some r /\ 1 <= len (dumps r).

(** The frame of the answer to a request. *)
Definition reply_frame (q : bytes * pyval) : bytes :=
  match echo_reply (fst q) (snd q) with
  | Some r => frame_of (dumps r)
  | None => []
  end.

End Script.

End EchoServer.

(** ** Call statistics of the test proxy ([update_stats] in
       [test/plugin_test.py]) *)

Module Stats.

Section Stats.

(** Durations are the floating-point differences of [time.time()]
    readings; their type, the number [0] that [total_time] starts from
    and the addition are parameters. *)
Variable T : Type.
Variable tzero : T.
Variable tadd : T -> T -> T.

(** [dict(count=..., total_time=..., number_items=...)] *)
Record entry : Type := Entry {
  count : Z;
  total_time : T;
  number_items : Z
}.

(** The global [stats], a dictionary from method name to entry. *)
Definition stats : Type := list (bytes * entry).

Fixpoint lookup (name : bytes) (st : stats) : option entry :=
  match st with
  | [] => None
  | (k, e) :: rest => if bytes_eqb name k then Some e else lookup name rest
  end.

(** [stats[name] = e] *)
Fixpoint store (name : bytes) (e : entry) (st : stats) : stats :=
  match st with
  | [] => [(name, e)]
  | (k, e') :: rest =>
      if bytes_eqb name k then (k, e) :: rest else (k, e') :: store name e rest
  end.

(** [stats[name][field] += ...]: the entry is fetched, which raises
    [KeyError] for a missing name, and updated in place. *)
Definition modify (name : bytes) (f : entry -> entry) : M stats unit :=
  fun st =>
    match lookup name st with
    | Some e => (Return tt, store name (f e) st)
    | None => (Raise (KeyError name), st)
    end.

(** [update_stats] *)
Definition update_stats (method_name : bytes) (duration : T)
           (number_results : Z) : M stats unit :=
  (fun st =>
     match lookup method_name st with
     | Some _ =>
         modify method_name
           (fun e => Entry (count e + 1) (total_time e) (number_items e)) st
     | None => (Return tt, store method_name (Entry 1 tzero 0) st)
     end) ;;;
  modify method_name
    (fun e => Entry (count e) (tadd (total_time e) duration) (number_items e)) ;;;
  if 0 <? number_results then
    modify method_name
      (fun e => Entry (count e) (total_time e) (number_items e + number_results))
  else ret tt.

(** [update_stats] once per recorded call, in order. *)
Fixpoint update_each (calls : list (bytes * T * Z)) : M stats unit :=
  match calls with
  | [] => ret tt
  | (name, duration, n) :: rest =>
      update_stats name duration n ;;; update_each rest
  end.

(** The calls made under one name. *)
Definition calls_of (name : bytes) (calls : list (bytes * T * Z))
  : list (bytes * T * Z) :=
  filter (fun c => bytes_eqb (fst (fst c)) name) calls.

(** The durations of some calls, and the sum of their positive result
    counts. *)
Definition durations (calls : list (bytes * T * Z)) : list T :=
  map (fun c => snd (fst c)) calls.

Definition positive_items (calls : list (bytes * T * Z)) : Z :=
  fold_right (fun c acc => (if 0 <? snd c then snd c else 0) + acc) 0 calls.

(** The entry of a name after some calls under it, from the entry it had
    before ([None]: no entry): the count grows by the number of calls,
    the durations are added to the time in call order, the positive
    result counts to the items. *)
Definition totals (before : option entry) (calls : list (bytes * T * Z))
  : option entry :=
  match calls with
  | [] => before
  | _ =>
      let e0 := match before with Some e => e | None => Entry 0 tzero 0 end in
      Some (Entry (count e0 + Z.of_nat (length calls))
                  (fold_left tadd (durations calls) (total_time e0))
                  (number_items e0 + positive_items calls))
  end.

End Stats.

Arguments Entry {T} count total_time number_items.
Arguments count {T} e.
Arguments total_time {T} e.
Arguments number_items {T} e.
Arguments lookup {T} name st.
Arguments store {T} name e st.
Arguments modify {T} name f.
Arguments calls_of {T} name calls.
Arguments durations {T} calls.
Arguments positive_items {T} calls.
Arguments update_stats {T} tzero tadd method_name duration number_results.
Arguments update_each {T} tzero tadd calls.
Arguments totals {T} tzero tadd before calls.

End Stats.

(** ** The call proxy of the plug-in test ([TestProxy.present] in
       [test/plugin_test.py]) *)

Module Proxy.

(** A value of [TestProxy.async_calls]: a tuple of [n] types, or, for
    ['volume_child_dependency_rm'], the bare type that [(unicode)]
    denotes. *)
Inductive shape : Type :=
| Types (n : nat)
| BareType.

(** [TestProxy.async_calls], in source order. *)
Definition async_calls : list (bytes * shape) :=
  [ (b "pool_create", Types 2);
    (b "pool_create_from_disks", Types 2);
    (b "pool_create_from_volumes", Types 2);
    (b "pool_create_from_pool", Types 2);
    (b "pool_delete", Types 1);
    (b "volume_create", Types 2);
    (b "volume_resize", Types 2);
    (b "volume_replicate", Types 2);
    (b "volume_replicate_range", Types 1);
    (b "volume_delete", Types 1);
    (b "volume_child_dependency_rm", BareType);
    (b "fs_delete", Types 1);
    (b "fs_resize", Types 2);
    (b "fs_create", Types 2);
    (b "fs_clone", Types 2);
    (b "file_clone", Types 1);
    (b "fs_snapshot_create", Types 2);
    (b "fs_snapshot_delete", Types 1);
    (b "fs_snapshot_revert", Types 1);
    (b "fs_child_dependency_rm", Types 1) ].

Fixpoint shape_of (name : bytes) (table : list (bytes * shape)) : option shape :=
  match table with
  | [] => None
  | (k, v) :: rest => if bytes_eqb name k then Some v else shape_of name rest
  end.

(** One record of [results]:
    [dict(rc=..., stack_trace=..., msg=...)], [None] fields as [None]. *)
Record result : Type := Result {
  rc : bool;
  stack_trace : option bytes;
  msg : option bytes
}.

Section Proxy.

(** Time: the type of [time.time()] readings, their difference, and the
    zero and the addition of [update_stats]; the successive readings of
    the clock. *)
Variable T : Type.
Variable tzero : T.
Variable tadd : T -> T -> T.
Variable tsub : T -> T -> T.
Variable clock : nat -> T.

(** The wrapped client [self.o]: the two status constants and the
    answers to [job_status] and [job_free] as in [PluginTest], and the
    outcome of every other method for given arguments. *)
Variable INPROGRESS COMPLETE : Z.
Variable status_reply : pyval -> nat -> outcome (Z * pyval * pyval).
Variable free_reply : pyval -> outcome pyval.
Variable other_reply : bytes -> list pyval -> outcome pyval.

(** [traceback.format_exc()] and [str(e)] for a caught exception, and
    [str(v)] for a container. *)
Variable format_exc : exn -> bytes.
Variable str_exn : exn -> bytes.
Variable str_container : pyval -> bytes.

(** The module state of the test and the proxy's wrapped client: the
    globals [results] and [stats], and how many clock readings have been
    taken. *)
Record proxy : Type := Proxy_ {
  wrapped : PluginTest.client;
  results : list (bytes * list result);
  stats : Stats.stats T;
  ticks : nat
}.

Definition on_wrapped {A} (m : M PluginTest.client A) : M proxy A :=
  fun p =>
    let (o, c') := m (wrapped p) in
    (o, Proxy_ c' (results p) (stats p) (ticks p)).

Definition on_stats {A} (m : M (Stats.stats T) A) : M proxy A :=
  fun p =>
    let (o, st') := m (stats p) in
    (o, Proxy_ (wrapped p) (results p) st' (ticks p)).

(** [time.time()] *)
Definition time : M proxy T :=
  fun p =>
    (Return (clock (ticks p)),
     Proxy_ (wrapped p) (results p) (stats p) (S (ticks p))).

Fixpoint results_of (name : bytes) (rs : list (bytes * list result))
  : option (list result) :=
  match rs with
  | [] => None
  | (k, l) :: rest => if bytes_eqb name k then Some l else results_of name rest
  end.

Fixpoint set_results (name : bytes) (l : list result)
         (rs : list (bytes * list result)) : list (bytes * list result) :=
  match rs with
  | [] => [(name, l)]
  | (k, l') :: rest =>
      if bytes_eqb name k then (k, l) :: rest
      else (k, l') :: set_results name l rest
  end.

(** [if not name in results: results[name] = []] *)
Definition ensure_results (name : bytes) : M proxy unit :=
  fun p =>
    match results_of name (results p) with
    | Some _ => (Return tt, p)
    | None =>
        (Return tt,
         Proxy_ (wrapped p) (set_results name [] (results p)) (stats p) (ticks p))
    end.

(** [results[name].append(r)] *)
Definition append_result (name : bytes) (r : result) : M proxy unit :=
  fun p =>
    match results_of name (results p) with
    | Some l =>
        (Return tt,
         Proxy_ (wrapped p) (set_results name (l ++ [r]) (results p))
                (stats p) (ticks p))
    | None => (Raise (KeyError name), p)
    end.

(** [getattr(self.o, name)( *args)] on the wrapped client: [job_status]
    and [job_free] are the plug-in calls of [PluginTest], with an
    optional [flags] argument; [job_status] gives its triple as a
    tuple. *)
Definition wrapped_call (name : bytes) (args : list pyval)
  : M PluginTest.client pyval :=
  if bytes_eqb name (b "job_status") then
    match args with
    | [job] | [job; _] =>
        r <- PluginTest.job_status status_reply job ;;
        let '(s, percent, i) := r in
        ret (PList [PInt s; percent; i])
    | _ => raise TypeError
    end
  else if bytes_eqb name (b "job_free") then
    match args with
    | [job] | [job; _] => PluginTest.job_free free_reply job
    | _ => raise TypeError
    end
  else fun c => (other_reply name args, c).

Definition invoke (name : bytes) (args : list pyval) : M proxy pyval :=
  on_wrapped (wrapped_call name args).

(** The [try] statement of [present]: the call is recorded in
    [results], and an exception is raised again after it is recorded. *)
Definition recorded_call (name : bytes) (args : list pyval) : M proxy pyval :=
  fun p =>
    match invoke name args p with
    | (Return v, p') =>
        (append_result name (Result true None None) ;;; ret v) p'
    | (Raise e, p') =>
        (append_result name
           (Result false (Some (format_exc e)) (Some (str_exn e))) ;;;
         raise e) p'
    | (Diverge, p') => (Diverge, p')
    end.

(** [with Duration() as method_time: body]: the clock is read on entry
    and on exit, also when [body] raises; the result is paired with
    [method_time.amount()]. *)
Definition timed {A} (body : M proxy A) : M proxy (A * T) :=
  start <- time ;;
  fun p =>
    match body p with
    | (Return a, p') => (stop <- time ;; ret (a, tsub stop start)) p'
    | (Raise e, p') => (time ;;; raise e) p'
    | (Diverge, p') => (Diverge, p')
    end.

(** [isinstance(v, collections.Sequence)]: strings, lists and tuples. *)
Definition is_sequence (v : pyval) : bool :=
  match v with
  | PStr _ | PList _ => true
  | _ => false
  end.

(** [len(v)] of a sequence. *)
Definition seq_len (v : pyval) : Z :=
  match v with
  | PStr s => len s
  | PList l => Z.of_nat (length l)
  | _ => 0
  end.

Definition is_none (v : pyval) : bool :=
  match v with PNone => true | _ => false end.

(** The arguments [wait_for_it] gets from a result [v]:
    [if type(rc) != tuple and type(rc) != list: rc = (rc, None)], then
    [self.wait_for_it(name, *rc)], which needs exactly two items. *)
Definition job_and_item (v : pyval) : option (pyval * pyval) :=
  match v with
  | PList [job; item] => Some (job, item)
  | PList _ => None
  | _ => Some (v, PNone)
  end.

(** The body of the [with] block of [present]: the recorded call, then
    the wait when the method can be asynchronous and gave something
    other than [None]; [waiter] is the method [self.wait_for_it]. *)
Definition call_and_wait (waiter : bytes -> pyval -> pyval -> M proxy pyval)
           (name : bytes) (args : list pyval) : M proxy pyval :=
  let job_possible :=
    match shape_of name async_calls with Some _ => true | None => false end in
  v <- recorded_call name args ;;
  if (job_possible && negb (is_none v))%bool then
    match job_and_item v with
    | Some (job, item) => waiter name job item
    | None => raise TypeError
    end
  else ret v.

(** The statements of [present] after the [with] block: the return
    value is put in a pair for the methods with two types, its items are
    counted for the other methods, and the statistics are updated. *)
Definition fix_up_and_count (name : bytes) (v : pyval) (amount : T)
  : M proxy pyval :=
  let job_possible :=
    match shape_of name async_calls with Some _ => true | None => false end in
  v' <- match shape_of name async_calls with
        | Some (Types n) =>
            if (2 =? n)%nat then ret (PList [PNone; v]) else ret v
        | Some BareType => raise TypeError
        | None => ret v
        end ;;
  let num_results :=
    if (negb job_possible && is_sequence v' && (2 <? seq_len v'))%bool
    then seq_len v' else 0 in
  on_stats (Stats.update_stats tzero tadd name amount num_results) ;;;
  ret v'.

(** [TestProxy.present], with the method [self.wait_for_it] it calls as
    [waiter]. *)
Definition present_with (waiter : bytes -> pyval -> pyval -> M proxy pyval)
           (name : bytes) (args : list pyval) : M proxy pyval :=
  ensure_results name ;;;
  r <- timed (call_and_wait waiter name args) ;;
  fix_up_and_count name (fst r) (snd r).

(** [v == n] for an integer constant: an integer, or a boolean taken as
    0 or 1. *)
Definition eq_const (v : pyval) (n : Z) : bool :=
  match v with
  | PInt z => z =? n
  | PBool true => 1 =? n
  | PBool false => 0 =? n
  | _ => false
  end.

(** [str(v)] *)
Definition str (v : pyval) : bytes :=
  match v with
  | PNone => b "None"
  | PBool true => b "True"
  | PBool false => b "False"
  | PInt z => Py.repr z
  | PStr s => s
  | _ => str_container v
  end.

(** [(s, percent, i) = v]: a sequence of three items is taken apart, one
    of another length raises [ValueError], and what cannot be iterated
    raises [TypeError]. *)
Definition unpack3 (v : pyval) : M proxy (pyval * pyval * pyval) :=
  match v with
  | PList [x; y; z] => ret (x, y, z)
  | PStr [x; y; z] => ret (PStr [x], PStr [y], PStr [z])
  | PDict [(x, _); (y, _); (z, _)] => ret (PStr x, PStr y, PStr z)
  | PList _ | PStr _ | PDict _ => raise (ValueError (b "unpack"))
  | _ => raise TypeError
  end.

(** [TestProxy.wait_for_it], with the proxied calls
    [self.job_status] and [self.job_free] it makes as [call]; [fuel]
    bounds the iterations of [while True]. *)
Fixpoint wait_loop (call : bytes -> list pyval -> M proxy pyval)
         (fuel : nat) (message : bytes) (job : pyval) : M proxy pyval :=
  match fuel with
  | O => diverge
  | S fuel' =>
      r <- call (b "job_status") [job] ;;
      t <- unpack3 r ;;
      let '(s, percent, i) := t in
      if eq_const s INPROGRESS then
        on_wrapped (PluginTest.sleep 250) ;;; wait_loop call fuel' message job
      else if eq_const s COMPLETE then
        call (b "job_free") [job] ;;; ret i
      else
        raise (Exception (message ++ b " job error code= " ++ str s))
  end.

Definition wait_for_it (call : bytes -> list pyval -> M proxy pyval)
           (fuel : nat) (message : bytes) (job item : pyval) : M proxy pyval :=
  if negb (truthy job) then ret item
  else wait_loop call fuel message job.

(** The two methods tied together: the calls [wait_for_it] makes go
    through [present] again (by [__getattr__]); [job_status] and
    [job_free] are not in [async_calls], so those calls wait for
    nothing. *)
Definition present (fuel : nat) (name : bytes) (args : list pyval)
  : M proxy pyval :=
  present_with
    (wait_for_it (present_with (fun _ _ _ => diverge)) fuel)
    name args.

End Proxy.

(** The wrapped client after one more [job_status] call, and after
    another call is added to its trace. *)
Definition polled (job : pyval) (c : PluginTest.client) : PluginTest.client :=
  PluginTest.Client (S (PluginTest.polls c))
    (PluginTest.calls c ++ [PluginTest.JobStatus job]).

Definition logged (x : PluginTest.call) (c : PluginTest.client)
  : PluginTest.client :=
  PluginTest.Client (PluginTest.polls c) (PluginTest.calls c ++ [x]).

(** [results] once [present] has made sure that the name has a list. *)
Definition ensured (name : bytes) (rs : list (bytes * list result))
  : list (bytes * list result) :=
  match results_of name rs with
  | Some _ => rs
  | None => set_results name [] rs
  end.

(** The records kept under a name, none when the name is absent. *)
Definition records (name : bytes) (rs : list (bytes * list result))
  : list result :=
  match results_of name rs with
  | Some l => l
  | None => []
  end.

(** [num_results] in [present], for a name that is not in
    [async_calls]: the length of a sequence of more than two items. *)
Definition num_results (v : pyval) : Z :=
  if (is_sequence v && (2 <? seq_len v))%bool then seq_len v else 0.

Arguments Proxy_ {T} wrapped results stats ticks.
Arguments wrapped {T} p.
Arguments results {T} p.
Arguments stats {T} p.
Arguments ticks {T} p.

End Proxy.

(** ** Concrete inputs

    The messages of the transport test ([TestTransport]), a reply with
    a foreign id, two plug-ins for the polling loop and two child
    processes. *)

Module Examples.

Definition nl : ascii := "010"%char.

(** The text of [test_simple] that holds braces, a colon and two double
    quotes, with a backslash added. *)
Definition tricky_text : bytes :=
  b "{}:" ++ [Json.dquote; Json.dquote] ++ b "\".

(** [send_req('test', t)] for that text. *)
Definition test_request : pyval :=
  Transport.request (PStr (b "test")) (PStr tricky_text).

(** The fault of [test_exceptions]. *)
Definition test_fault : pyval :=
  Transport.fault (PInt 100) (PInt 100) (PStr (b "Test error message")) PNone.

Definition reply_7 : pyval := Transport.response (PInt 1) (PInt 7).


(** A plug-in whose job is in progress for two polls and then complete
    with a volume; [INPROGRESS] is 1 and [COMPLETE] is 2. *)
Definition completing (job : pyval) (k : nat) : outcome (Z * pyval * pyval) :=
  if (k <? 2)%nat then Return (1, PInt (50 * Z.of_nat k), PNone)
  else Return (2, PInt 100, PStr (b "VOL_1")).

(** A plug-in whose job has failed (status 3) at the first poll. *)
Definition failing (job : pyval) (k : nat) : outcome (Z * pyval * pyval) :=
  Return (3, PInt 0, PNone).

Definition free_ok (job : pyval) : outcome pyval := Return PNone.

(** A command that prints one line and succeeds, and the same command
    failing with status 1 and a line on its standard error. *)
Definition ran_ok (cmds : list bytes) : outcome Hpsa.process :=
  Return (Hpsa.Process [b "Smart Array P410" ++ [nl]] [] 0).

Definition ran_badly (cmds : list bytes) : outcome Hpsa.process :=
  Return (Hpsa.Process [] [b "Error: no controller" ++ [nl]] 1).

(** The script of the transport test: an echoed text and a fault. *)
Definition echo_script : list (bytes * pyval) :=
  [ (b "test", PStr (b " "));
    (b "error", PDict [(b "errorcode", PInt 100);
                       (b "errormsg", PStr (b "Test error message"))]) ].

(** A plug-in whose job stays in progress, and one whose [job_status]
    fails. *)
Definition stalled (job : pyval) (k : nat) : outcome (Z * pyval * pyval) :=
  Return (1, PInt 0, PNone).

Definition broken (job : pyval) (k : nat) : outcome (Z * pyval * pyval) :=
  Raise (LsmError (PInt 1) (PStr (b "job not found")) PNone).

Definition free_fails (job : pyval) : outcome pyval :=
  Raise (LsmError (PInt 1) (PStr (b "job not found")) PNone).

(** The other methods of a wrapped client: a volume creation that gives
    a job, two calls that give [None], a list of three systems, and
    everything else unsupported. *)
Definition array (name : bytes) (args : list pyval) : outcome pyval :=
  if bytes_eqb name (b "volume_create")
  then Return (PList [PStr (b "JOB_1"); PNone])
  else if bytes_eqb name (b "volume_delete") then Return PNone
  else if bytes_eqb name (b "volume_child_dependency_rm") then Return PNone
  else if bytes_eqb name (b "systems")
  then Return (PList [PInt 1; PInt 2; PInt 3])
  else Raise (LsmError (PInt 153) (PStr (b "Not supported")) PNone).

(** A clock that advances by ten between readings, and the state of a
    test run that has called nothing yet. *)
Definition tick (k : nat) : Z := 10 * Z.of_nat k.

Definition fresh : Proxy.proxy Z :=
  Proxy.Proxy_ (PluginTest.Client 0 []) [] [] 0.

Definition no_text (e : exn) : bytes := [].

Definition no_str (v : pyval) : bytes := [].

End Examples.

(** * Properties *)

(** ** Decimal headers: [repr], [zfill] and [int] *)

Section Decimal.

Import Py.

Lemma digit_spec (d : Z) :
  0 <= d <= 9 -> isdigit (digit d) = true /\ digit_val (digit d) = d.
Proof.
  intros H.
  assert (d = 0 \/ d = 1 \/ d = 2 \/ d = 3 \/ d = 4 \/ d = 5 \/ d = 6 \/
          d = 7 \/ d = 8 \/ d = 9) as Hd by lia.
  repeat (destruct Hd as [Hd | Hd]; [subst d; split; reflexivity |]).
  subst d; split; reflexivity.
Qed.

Lemma digits_val_app (s t : bytes) :
  digits_val (s ++ t) =
  fold_left (fun acc c => acc * 10 + digit_val c) t (digits_val s).
Proof. unfold digits_val. apply fold_left_app. Qed.

Lemma digits_val_snoc (s : bytes) (c : ascii) :
  digits_val (s ++ [c]) = digits_val s * 10 + digit_val c.
Proof. rewrite digits_val_app. reflexivity. Qed.

(** [digits] writes [n] in front of the accumulator: at least one digit,
    only digits, with value [n], and no more than [k] of them when
    [n < 10 ^ k]. *)
Lemma digits_spec (fuel : nat) :
  forall n acc, 0 <= n < 10 ^ Z.of_nat (S fuel) ->
  exists ds, digits (S fuel) n acc = ds ++ acc /\ ds <> [] /\
             forallb isdigit ds = true /\ digits_val ds = n /\
             (forall k : nat, (1 <= k)%nat -> n < 10 ^ Z.of_nat k ->
                              (length ds <= k)%nat).
Proof.
  induction fuel as [| fuel IH]; intros n acc Hn;
    cbn [digits]; destruct (n <? 10) eqn:Hlt.
  1, 3: apply Z.ltb_lt in Hlt;
    destruct (digit_spec (n mod 10)) as [Hd Hv];
    [ pose proof (Z.mod_pos_bound n 10); lia | ];
    exists [digit (n mod 10)]; repeat split;
    [ discriminate
    | cbn [forallb]; now rewrite Hd
    | unfold digits_val; cbn [fold_left]; rewrite Hv, Z.mod_small; lia
    | intros k Hk _; cbn [length]; lia ].
  - apply Z.ltb_ge in Hlt. change (10 ^ Z.of_nat 1) with 10 in Hn. lia.
  - apply Z.ltb_ge in Hlt.
    assert (Hq : 0 <= n / 10 < 10 ^ Z.of_nat (S fuel)).
    { split; [apply Z.div_pos; lia |].
      apply Z.div_lt_upper_bound; [lia |].
      rewrite (Nat2Z.inj_succ (S fuel)), Z.pow_succ_r in Hn; lia. }
    destruct (IH (n / 10) (digit (n mod 10) :: acc) Hq)
      as (ds & Heq & Hne & Hall & Hval & Hlen).
    destruct (digit_spec (n mod 10)) as [Hd Hv].
    { pose proof (Z.mod_pos_bound n 10). lia. }
    exists (ds ++ [digit (n mod 10)]). repeat split.
    + cbn [digits] in Heq. rewrite Heq, <- app_assoc. reflexivity.
    + destruct ds; discriminate.
    + rewrite forallb_app, Hall. cbn [forallb andb]. now rewrite Hd.
    + rewrite digits_val_snoc, Hval, Hv.
      pose proof (Z.div_mod n 10). lia.
    + intros k Hk Hnk. rewrite length_app. cbn [length].
      destruct k as [| k]; [lia |].
      destruct k as [| k].
      { change (10 ^ Z.of_nat 1) with 10 in Hnk. lia. }
      assert (length ds <= S k)%nat; [| lia].
      apply Hlen; [lia |].
      apply Z.div_lt_upper_bound; [lia |].
      rewrite (Nat2Z.inj_succ (S k)), Z.pow_succ_r in Hnk; lia.
Qed.

Lemma repr_spec (n : Z) :
  0 <= n ->
  exists ds, repr n = ds /\ ds <> [] /\
             forallb isdigit ds = true /\ digits_val ds = n /\
             (forall k : nat, (1 <= k)%nat -> n < 10 ^ Z.of_nat k ->
                              (length ds <= k)%nat).
Proof.
  intros Hn. unfold repr.
  replace (n <? 0) with false by (symmetry; apply Z.ltb_ge; lia).
  destruct (digits_spec (Z.to_nat (Z.log2 n)) n [])
    as (ds & Heq & H).
  - split; [lia |].
    rewrite Nat2Z.inj_succ, Z2Nat.id by apply Z.log2_nonneg.
    destruct (Z.eq_dec n 0) as [-> | Hnz]; [reflexivity |].
    pose proof (Z.log2_spec n ltac:(lia)) as [_ Hlog].
    eapply Z.lt_le_trans; [exact Hlog |].
    apply Z.pow_le_mono_l. split; [lia | lia].
  - exists ds. rewrite app_nil_r in Heq. split; [exact Heq | exact H].
Qed.

Lemma isdigit_not_space (c : ascii) : isdigit c = true -> isspace c = false.
Proof.
  unfold isdigit, isspace. intros H.
  apply andb_true_iff in H as [H1 H2].
  apply Nat.leb_le in H1. apply Nat.leb_le in H2.
  apply orb_false_iff. split.
  - apply andb_false_iff. right. apply Nat.leb_gt. lia.
  - apply Nat.eqb_neq. lia.
Qed.

Lemma isdigit_not_sign (c : ascii) :
  isdigit c = true -> Ascii.eqb c "-" = false /\ Ascii.eqb c "+" = false.
Proof.
  intros H. split.
  - destruct (Ascii.eqb_spec c "-") as [-> |]; [discriminate H | reflexivity].
  - destruct (Ascii.eqb_spec c "+") as [-> |]; [discriminate H | reflexivity].
Qed.

Lemma lstrip_digits (s : bytes) : forallb isdigit s = true -> lstrip s = s.
Proof.
  destruct s as [| c s]; [reflexivity |]. simpl. intros H.
  apply andb_true_iff in H as [H _].
  now rewrite (isdigit_not_space c H).
Qed.

Lemma strip_digits (s : bytes) : forallb isdigit s = true -> strip s = s.
Proof.
  intros H. unfold strip, rstrip. rewrite (lstrip_digits s H).
  rewrite lstrip_digits, rev_involutive; [reflexivity |].
  rewrite forallb_forall in *. intros x Hx. apply H. now apply in_rev.
Qed.

Lemma forallb_isdigit_zeros (k : nat) :
  forallb isdigit (repeat "0"%char k) = true.
Proof. induction k; [reflexivity | simpl; exact IHk]. Qed.

Lemma digits_val_zeros (k : nat) (s : bytes) :
  digits_val (repeat "0"%char k ++ s) = digits_val s.
Proof.
  rewrite digits_val_app.
  replace (digits_val (repeat "0"%char k)) with 0; [reflexivity |].
  induction k as [| k IH]; [reflexivity |].
  change (repeat "0"%char (S k)) with (["0"%char] ++ repeat "0"%char k).
  rewrite digits_val_app. exact IH.
Qed.

(** A string of digits reads back as its value. *)
Lemma int_digits (s : bytes) :
  s <> [] -> forallb isdigit s = true -> int s = Some (digits_val s).
Proof.
  intros Hne Hall. unfold int. rewrite (strip_digits s Hall).
  destruct s as [| c s]; [congruence |].
  pose proof Hall as Hc. simpl in Hc. apply andb_true_iff in Hc as [Hc _].
  destruct (isdigit_not_sign c Hc) as [-> ->].
  unfold unsigned. now rewrite Hall.
Qed.

(** The header written for a length [n >= 0]: [repr n] behind a run of
    zeros, all digits, reading back as [n]. *)
Lemma zfill_spec (n : Z) (width : nat) :
  0 <= n ->
  zfill n width = repeat "0"%char (width - length (repr n)) ++ repr n /\
  forallb isdigit (zfill n width) = true /\
  int (zfill n width) = Some n.
Proof.
  intros Hn. destruct (repr_spec n Hn) as (ds & Hr & Hne & Hall & Hval & _).
  assert (Hz : zfill n width = repeat "0"%char (width - length (repr n)) ++ repr n).
  { unfold zfill, str_zfill. rewrite Hr.
    destruct ds as [| c ds]; [congruence |].
    pose proof Hall as Hc. simpl in Hc. apply andb_true_iff in Hc as [Hc _].
    destruct (isdigit_not_sign c Hc) as [-> ->]. reflexivity. }
  assert (Hd : forallb isdigit (zfill n width) = true).
  { rewrite Hz, forallb_app, forallb_isdigit_zeros, Hr. exact Hall. }
  repeat split; [exact Hz | exact Hd |].
  rewrite int_digits; [| | exact Hd].
  - rewrite Hz, digits_val_zeros, Hr, Hval. reflexivity.
  - rewrite Hz, Hr. destruct ds; [congruence |].
    intros Habs. apply app_eq_nil in Habs as [_ Habs]. discriminate.
Qed.

(** The header has exactly [width] characters as long as the length has
    no more than [width] digits. *)
Lemma zfill_length (n : Z) (width : nat) :
  (1 <= width)%nat -> 0 <= n < 10 ^ Z.of_nat width ->
  length (zfill n width) = width.
Proof.
  intros Hw [Hn Hlt].
  destruct (zfill_spec n width Hn) as (Hz & _ & _).
  destruct (repr_spec n Hn) as (ds & Hr & _ & _ & _ & Hlen).
  rewrite Hz, length_app, repeat_length, Hr.
  specialize (Hlen width Hw Hlt). lia.
Qed.

End Decimal.

(** ** Reading from the socket *)

Section Reading.

Import Transport.

Lemma len_app (x y : bytes) : len (x ++ y) = len x + len y.
Proof. unfold len. rewrite length_app. lia. Qed.

Lemma len_nonneg (x : bytes) : 0 <= len x.
Proof. unfold len. lia. Qed.

(** [recv] hands out a prefix of the pending bytes, of at most [n] bytes,
    and an empty one only when nothing is pending (or nothing was asked). *)
Lemma recv_from_spec (n : nat) :
  forall segs r segs',
  recv_from n segs = (r, segs') ->
  r ++ concat segs' = concat segs /\ (length r <= n)%nat /\
  (r = [] -> n = 0%nat \/ concat segs = []).
Proof.
  induction segs as [| seg rest IH]; intros r segs' H.
  - inversion H; subst. repeat split; auto; simpl; lia.
  - destruct seg as [| c seg].
    + cbn [recv_from] in H. apply IH in H. exact H.
    + cbn [recv_from] in H. inversion H; subst; clear H.
      repeat split.
      * rewrite <- (firstn_skipn n (c :: seg)) at 3.
        cbn [concat]. rewrite <- app_assoc. f_equal.
        destruct (skipn n (c :: seg)); reflexivity.
      * apply firstn_le_length.
      * destruct n; [auto | discriminate].
Qed.

Lemma prefix_split (r : bytes) :
  forall data rest x,
  r ++ x = data ++ rest -> (length r <= length data)%nat ->
  exists data', data = r ++ data' /\ x = data' ++ rest.
Proof.
  induction r as [| a r IH]; intros data rest x H Hlen.
  - exists data. split; [reflexivity | exact H].
  - destruct data as [| d data]; [simpl in Hlen; lia |].
    simpl in H. injection H as -> H. simpl in Hlen.
    destruct (IH data rest x H ltac:(lia)) as (data' & -> & ->).
    exists data'. split; reflexivity.
Qed.

(** When the pending bytes start with the [data] still missing, the loop
    returns it, however the bytes are cut into segments, and leaves the
    rest pending. *)
Lemma readAll_loop_ok (fuel : nat) :
  forall l acc data rest segs out,
  concat segs = data ++ rest ->
  l = len acc + len data ->
  (length data <= fuel)%nat ->
  exists segs',
    readAll_loop fuel l acc (Socket segs out) =
      (Return (acc ++ data), Socket segs' out) /\
    concat segs' = rest.
Proof.
  induction fuel as [| fuel IH]; intros l acc data rest segs out Hsegs Hl Hfuel.
  - destruct data; [| simpl in Hfuel; lia].
    cbn [readAll_loop]. unfold len in Hl. simpl in Hl.
    replace (len acc <? l) with false by (symmetry; apply Z.ltb_ge; unfold len; lia).
    exists segs. rewrite app_nil_r. split; [reflexivity | exact Hsegs].
  - cbn [readAll_loop]. destruct data as [| d data].
    + unfold len in Hl. simpl in Hl.
      replace (len acc <? l) with false by (symmetry; apply Z.ltb_ge; unfold len; lia).
      exists segs. rewrite app_nil_r. split; [reflexivity | exact Hsegs].
    + assert (Hlt : (len acc <? l) = true).
      { apply Z.ltb_lt. unfold len in *. simpl length in Hl. lia. }
      rewrite Hlt. unfold bind, recv. cbn [inbound sent].
      replace (Z.to_nat (l - len acc)) with (length (d :: data))
        by (unfold len in *; lia).
      destruct (recv_from (length (d :: data)) segs) as [r segs1] eqn:Hrecv.
      apply recv_from_spec in Hrecv as (Hcat & Hle & Hnil).
      rewrite Hsegs in Hcat, Hnil.
      destruct r as [| c r].
      { destruct (Hnil eq_refl) as [H0 | H0]; discriminate H0. }
      destruct (prefix_split (c :: r) (d :: data) rest (concat segs1) Hcat Hle)
        as (data' & Hdata & Hrest).
      destruct (IH l (acc ++ c :: r) data' rest segs1 out Hrest) as (segs' & Hrun & Hcat').
      * rewrite len_app, Hl, Hdata, len_app. lia.
      * rewrite Hdata, length_app in Hfuel. simpl in Hfuel. lia.
      * exists segs'. rewrite Hrun, Hdata, <- app_assoc.
        split; [reflexivity | exact Hcat'].
Qed.

(** When fewer bytes are pending than are still missing, the loop ends
    with [SocketEOF]. *)
Lemma readAll_loop_eof (fuel : nat) :
  forall l acc segs out,
  len acc + len (concat segs) < l ->
  (length (concat segs) < fuel)%nat ->
  exists segs',
    readAll_loop fuel l acc (Socket segs out) =
      (Raise SocketEOF, Socket segs' out).
Proof.
  induction fuel as [| fuel IH]; intros l acc segs out Hshort Hfuel; [lia |].
  cbn [readAll_loop].
  assert (Hlt : (len acc <? l) = true).
  { apply Z.ltb_lt. pose proof (len_nonneg (concat segs)). lia. }
  rewrite Hlt. unfold bind, recv. cbn [inbound sent].
  destruct (recv_from (Z.to_nat (l - len acc)) segs) as [r segs1] eqn:Hrecv.
  apply recv_from_spec in Hrecv as (Hcat & _ & _).
  destruct r as [| c r].
  - exists segs1. reflexivity.
  - apply IH.
    + rewrite <- Hcat in Hshort. rewrite !len_app in *. lia.
    + rewrite <- Hcat, length_app in Hfuel. simpl in Hfuel. lia.
Qed.

(** The budget [l] given to the loop by [readAll] is never exhausted. *)
Lemma readAll_loop_total (fuel : nat) :
  forall l acc s,
  l - len acc <= Z.of_nat fuel ->
  fst (readAll_loop fuel l acc s) <> Diverge.
Proof.
  induction fuel as [| fuel IH]; intros l acc s Hfuel; cbn [readAll_loop].
  - replace (len acc <? l) with false by (symmetry; apply Z.ltb_ge; lia).
    discriminate.
  - destruct (len acc <? l) eqn:Hlt; [| discriminate].
    unfold bind, recv.
    destruct (recv_from (Z.to_nat (l - len acc)) (inbound s)) as [r segs1].
    destruct r as [| c r]; [discriminate |].
    apply IH. rewrite len_app. unfold len at 2. simpl length. lia.
Qed.

Lemma readAll_total (l : Z) (s : socket) : fst (readAll l s) <> Diverge.
Proof.
  unfold readAll. destruct (l <? 1) eqn:Hl; [discriminate |].
  apply readAll_loop_total. apply Z.ltb_ge in Hl. unfold len. simpl. lia.
Qed.

Lemma readAll_ok (l : Z) (data rest : bytes) (segs out : list bytes) :
  1 <= l -> len data = l -> concat segs = data ++ rest ->
  exists segs',
    readAll l (Socket segs out) = (Return data, Socket segs' out) /\
    concat segs' = rest.
Proof.
  intros Hl Hlen Hsegs. unfold readAll.
  replace (l <? 1) with false by (symmetry; apply Z.ltb_ge; lia).
  apply (readAll_loop_ok (Z.to_nat l) l [] data rest segs out Hsegs).
  - unfold len at 1. simpl. lia.
  - unfold len in Hlen. lia.
Qed.

Lemma readAll_eof (l : Z) (segs out : list bytes) :
  len (concat segs) < l ->
  exists segs',
    readAll l (Socket segs out) = (Raise SocketEOF, Socket segs' out).
Proof.
  intros Hshort. pose proof (len_nonneg (concat segs)) as Hpos. unfold readAll.
  replace (l <? 1) with false by (symmetry; apply Z.ltb_ge; lia).
  apply readAll_loop_eof.
  - unfold len at 1. simpl. lia.
  - unfold len in *. lia.
Qed.

Lemma readAll_below_one (l : Z) (s : socket) :
  l < 1 ->
  readAll l s = (Raise (ValueError (b "Trying to read less than 1 byte!")), s).
Proof.
  intros Hl. unfold readAll.
  replace (l <? 1) with true by (symmetry; apply Z.ltb_lt; lia).
  reflexivity.
Qed.

(** A complete frame is received whole: a header of ten bytes that reads
    as the length of the payload behind it. *)
Lemma recvMsg_frame (hdr m rest : bytes) (segs out : list bytes) :
  length hdr = HDR_LEN -> Py.int hdr = Some (len m) -> 1 <= len m ->
  concat segs = hdr ++ m ++ rest ->
  exists segs',
    recvMsg (Socket segs out) = (Return m, Socket segs' out) /\
    concat segs' = rest.
Proof.
  intros Hhdr Hint Hm Hsegs. unfold recvMsg, bind.
  destruct (readAll_ok (Z.of_nat HDR_LEN) hdr (m ++ rest) segs out)
    as (segs1 & -> & Hcat1); [unfold HDR_LEN; lia | unfold len; lia | exact Hsegs |].
  unfold int_of_header. rewrite Hint. unfold ret.
  destruct (readAll_ok (len m) m rest segs1 out Hm eq_refl Hcat1)
    as (segs2 & -> & Hcat2).
  exists segs2. split; [reflexivity | exact Hcat2].
Qed.

(** What [sendMsg] writes for a message of one to 9999999999 bytes. *)
Lemma sendMsg_ok (m : bytes) (s : socket) :
  1 <= len m ->
  sendMsg (Some m) s =
    (Return tt, Socket (inbound s) (sent s ++ [frame_of m])).
Proof.
  intros Hm. unfold sendMsg.
  replace (len m <? 1) with false by (symmetry; apply Z.ltb_ge; lia).
  reflexivity.
Qed.

(** A frame written by [sendMsg] and delivered in any segmentation is
    received whole by [recvMsg]. *)
Lemma recvMsg_sent (m rest : bytes) (segs out : list bytes) :
  1 <= len m < 10 ^ 10 ->
  concat segs = frame_of m ++ rest ->
  exists segs',
    recvMsg (Socket segs out) = (Return m, Socket segs' out) /\
    concat segs' = rest.
Proof.
  intros [Hm Hlt] Hsegs.
  destruct (zfill_spec (len m) HDR_LEN ltac:(lia)) as (_ & _ & Hint).
  apply (recvMsg_frame (Py.zfill (len m) HDR_LEN) m rest segs out); auto.
  - apply zfill_length; [unfold HDR_LEN; lia |].
    split; [lia | exact Hlt].
  - unfold frame_of in Hsegs. rewrite <- app_assoc in Hsegs. exact Hsegs.
Qed.

End Reading.

(** ** The wire protocol *)

Section Wire.

Import Transport.

Variable dumps : pyval -> bytes.
Variable loads : bytes -> option pyval.

(** C3 (frame round-trip).  A request of [send_req], with a method name,
    the id 100 and parameters that the codec carries unchanged, whose
    encoding has between one and 9999999999 bytes, is written as one
    frame; however the bytes of the frame are cut into the segments that
    successive [recv] calls see, the peer's [read_req] returns the
    dictionary that was sent, in which ['method'] is the method name,
    ['id'] is 100 and ['params'] are the parameters, and leaves what
    follows the frame unread. *)
Theorem frame_round_trip (method : bytes) (args : pyval) (sender : socket) :
  let msg := request (PStr method) args in
  loads (dumps msg) = Some msg ->
  1 <= len (dumps msg) < 10 ^ 10 ->
  send_req dumps (PStr method) args sender =
    (Return tt,
     Socket (inbound sender) (sent sender ++ [frame_of (dumps msg)])) /\
  forall segs out rest,
    concat segs = frame_of (dumps msg) ++ rest ->
    exists v segs',
      read_req loads (Socket segs out) = (Return v, Socket segs' out) /\
      concat segs' = rest /\
      v = msg /\
      (forall s, getitem v (b "method") s = (Return (PStr method), s)) /\
      (forall s, getitem v (b "id") s = (Return (PInt 100), s)) /\
      (forall s, getitem v (b "params") s = (Return args, s)).
Proof.
  intros msg Hcodec [Hmin Hmax]. split.
  - unfold send_req. fold msg. apply sendMsg_ok. exact Hmin.
  - intros segs out rest Hsegs. unfold read_req, bind.
    destruct (recvMsg_sent (dumps msg) rest segs out (conj Hmin Hmax) Hsegs)
      as (segs' & -> & Hrest).
    replace (0 <? len (dumps msg)) with true by (symmetry; apply Z.ltb_lt; lia).
    unfold json_loads. rewrite Hcodec.
    exists msg, segs'. split; [reflexivity |]. split; [exact Hrest |].
    split; [reflexivity |].
    split; [| split]; intros s; reflexivity.
Qed.

(** What [read_resp] makes of a received payload that decodes to a
    dictionary. *)
Lemma read_resp_decoded (segs out : list bytes) (data : bytes)
      (peer : socket) (items : list (bytes * pyval)) :
  recvMsg (Socket segs out) = (Return data, peer) ->
  loads data = Some (PDict items) ->
  read_resp loads (Socket segs out) =
    match assoc (b "result") items with
    | Some r =>
        match assoc (b "id") items with
        | Some i => (Return (r, i), peer)
        | None => (Raise (KeyError (b "id")), peer)
        end
    | None =>
        match assoc (b "error") items with
        | Some e => (Raise (LsmError_of e), peer)
        | None => (Raise (KeyError (b "error")), peer)
        end
    end.
Proof.
  intros Hrecv Hload. unfold read_resp, bind. rewrite Hrecv.
  unfold json_loads. rewrite Hload. unfold ret at 1.
  destruct (assoc (b "result") items) as [r |] eqn:Hr.
  - unfold getitem. rewrite Hr. unfold ret at 1.
    destruct (assoc (b "id") items); reflexivity.
  - unfold getitem. destruct (assoc (b "error") items); reflexivity.
Qed.


Lemma recvMsg_raises (s s' : socket) (e : exn) :
  recvMsg s = (Raise e, s') ->
  read_req loads s = (Raise e, s') /\ read_resp loads s = (Raise e, s').
Proof.
  intros H. unfold read_req, read_resp, bind. rewrite H. split; reflexivity.
Qed.

(** C5 (EOF distinction).  When the peer closes before the ten header
    bytes have arrived, or after a header that declares [N >= 1] bytes
    but before [N] bytes of body have arrived, the receiver ([recvMsg]
    and with it [read_req] and [read_resp]) raises [SocketEOF], not a
    [ValueError] of the decoder or any other error. *)
Theorem eof_distinction (segs out : list bytes) :
  (len (concat segs) < Z.of_nat HDR_LEN ->
   ends_with_eof loads (Socket segs out)) /\
  (forall hdr body N,
     concat segs = hdr ++ body ->
     length hdr = HDR_LEN ->
     Py.int hdr = Some N ->
     1 <= N ->
     len body < N ->
     ends_with_eof loads (Socket segs out)).
Proof.
  split.
  - intros Hshort.
    destruct (readAll_eof (Z.of_nat HDR_LEN) segs out Hshort) as (segs' & Hrd).
    assert (Hrecv : recvMsg (Socket segs out) = (Raise SocketEOF, Socket segs' out)).
    { unfold recvMsg, bind. rewrite Hrd. reflexivity. }
    destruct (recvMsg_raises _ _ _ Hrecv) as [Hreq Hresp].
    unfold ends_with_eof. rewrite Hrecv, Hreq, Hresp. auto.
  - intros hdr body N Hsegs Hhdr Hint HN Hbody.
    destruct (readAll_ok (Z.of_nat HDR_LEN) hdr body segs out)
      as (segs1 & Hrd1 & Hcat1);
      [unfold HDR_LEN; lia | unfold len; lia | exact Hsegs |].
    destruct (readAll_eof N segs1 out) as (segs2 & Hrd2);
      [rewrite Hcat1; exact Hbody |].
    assert (Hrecv : recvMsg (Socket segs out) = (Raise SocketEOF, Socket segs2 out)).
    { unfold recvMsg, bind. rewrite Hrd1. unfold int_of_header. rewrite Hint.
      unfold ret. rewrite Hrd2. reflexivity. }
    destruct (recvMsg_raises _ _ _ Hrecv) as [Hreq Hresp].
    unfold ends_with_eof. rewrite Hrecv, Hreq, Hresp. auto.
Qed.

(** C9 (zero-length frame).  After a ten-byte header that reads as
    zero, [recvMsg] calls [readAll] with a count below one, which raises
    [ValueError] with the bytes behind the header still pending; the
    error goes through [read_req] and [read_resp] whatever the decoder
    is, as [ValueError] and not as [SocketEOF]. *)
Theorem zero_length_frame_rejected (hdr rest : bytes) (segs out : list bytes) :
  length hdr = HDR_LEN ->
  Py.int hdr = Some 0 ->
  concat segs = hdr ++ rest ->
  let err := ValueError (b "Trying to read less than 1 byte!") in
  exists segs',
    readAll (Z.of_nat HDR_LEN) (Socket segs out) =
      (Return hdr, Socket segs' out) /\
    concat segs' = rest /\
    readAll 0 (Socket segs' out) = (Raise err, Socket segs' out) /\
    recvMsg (Socket segs out) = (Raise err, Socket segs' out) /\
    read_req loads (Socket segs out) = (Raise err, Socket segs' out) /\
    read_resp loads (Socket segs out) = (Raise err, Socket segs' out) /\
    err <> SocketEOF.
Proof.
  intros Hhdr Hint Hsegs err.
  destruct (readAll_ok (Z.of_nat HDR_LEN) hdr rest segs out)
    as (segs' & Hrd & Hcat);
    [unfold HDR_LEN; lia | unfold len; lia | exact Hsegs |].
  assert (Hrecv : recvMsg (Socket segs out) = (Raise err, Socket segs' out)).
  { unfold recvMsg, bind. rewrite Hrd. unfold int_of_header. rewrite Hint.
    unfold ret. apply readAll_below_one. lia. }
  destruct (recvMsg_raises _ _ _ Hrecv) as [Hreq Hresp].
  exists segs'.
  split; [exact Hrd |]. split; [exact Hcat |].
  split; [apply readAll_below_one; lia |].
  split; [exact Hrecv |]. split; [exact Hreq |]. split; [exact Hresp |].
  unfold err. discriminate.
Qed.

End Wire.

(** ** Writing a frame *)

Section Writing.

Import Transport.

(** C6 (frame write), for messages of one to 9999999999 bytes.
    [sendMsg] makes one [sendall] call, whose buffer is the header
    followed by the message; the header has exactly ten characters, all
    decimal digits: the length of the message behind a run of zeros.
    For the empty message and for [None] it raises [ValueError] and
    writes nothing. *)
Theorem sendMsg_frame (s : socket) :
  (forall m,
     1 <= len m < 10 ^ 10 ->
     exists hdr,
       sendMsg (Some m) s =
         (Return tt, Socket (inbound s) (sent s ++ [hdr ++ m])) /\
       length hdr = 10%nat /\
       forallb Py.isdigit hdr = true /\
       hdr = repeat "0"%char (10 - length (Py.repr (len m))) ++ Py.repr (len m) /\
       Py.int hdr = Some (len m)) /\
  sendMsg (Some []) s = (Raise (ValueError (b "Msg argument empty")), s) /\
  sendMsg None s = (Raise (ValueError (b "Msg argument empty")), s).
Proof.
  split; [| split; reflexivity].
  intros m [Hmin Hmax].
  destruct (zfill_spec (len m) HDR_LEN ltac:(lia)) as (Hz & Hdig & Hint).
  exists (Py.zfill (len m) HDR_LEN).
  split; [apply sendMsg_ok; exact Hmin |].
  split; [apply zfill_length; [unfold HDR_LEN; lia | split; [lia | exact Hmax]] |].
  split; [exact Hdig |]. split; [exact Hz | exact Hint].
Qed.

Lemma len_repeat (c : ascii) (n : Z) :
  0 <= n -> len (repeat c (Z.to_nat n)) = n.
Proof. intros Hn. unfold len. rewrite repeat_length. lia. Qed.

(** C6, beyond ten digits.  A message of 10000000000 bytes is not empty,
    and [sendMsg] writes it behind the eleven-character header
    [10000000000]: no ten-character header precedes it. *)
Lemma sendMsg_long_header :
  let m := repeat "x"%char (Z.to_nat 10000000000) in
  m <> [] /\
  sendMsg (Some m) (Socket [] []) =
    (Return tt, Socket [] [b "10000000000" ++ m]) /\
  length (b "10000000000") = 11%nat /\
  ~ (exists hdr,
       length hdr = 10%nat /\
       sendMsg (Some m) (Socket [] []) = (Return tt, Socket [] [hdr ++ m])).
Proof.
  intros m.
  assert (Hlen : len m = 10000000000) by (apply len_repeat; lia).
  assert (Hsend : sendMsg (Some m) (Socket [] []) =
                  (Return tt, Socket [] [b "10000000000" ++ m])).
  { rewrite sendMsg_ok by (rewrite Hlen; lia).
    unfold frame_of. rewrite Hlen. reflexivity. }
  split; [| split; [exact Hsend | split; [reflexivity |]]].
  - intros Hnil. rewrite Hnil in Hlen. discriminate Hlen.
  - intros (hdr & Hhdr & Heq). rewrite Hsend in Heq.
    injection Heq as Heq.
    change (b "10000000000" ++ m = hdr ++ m) in Heq.
    apply app_inv_tail in Heq.
    rewrite <- Heq in Hhdr. discriminate Hhdr.
Qed.

End Writing.

(** ** The synchronous call *)

Section Call.

Import Transport.

Variable dumps : pyval -> bytes.
Variable loads : bytes -> option pyval.

(** C7 (message id), as the code has it.  [read_resp] hands the id of a
    reply back without looking at it; [rpc] then asserts that it equals
    100: for a reply carrying a result [r] and an id [i], [rpc] returns
    [r] when [i] is 100 and fails with [AssertionError] for any other
    id, after the request has been written and the reply read. *)
Theorem rpc_checks_id (method args r i : pyval) (segs out rest : list bytes)
        (tail : bytes) :
  let reply := response r i in
  1 <= len (dumps (request method args)) ->
  loads (dumps reply) = Some reply ->
  1 <= len (dumps reply) < 10 ^ 10 ->
  concat segs = frame_of (dumps reply) ++ tail ->
  exists segs',
    concat segs' = tail /\
    let after :=
      Socket segs' (out ++ [frame_of (dumps (request method args))]) in
    read_resp loads
      (Socket segs (out ++ [frame_of (dumps (request method args))])) =
      (Return (r, i), after) /\
    rpc dumps loads method args (Socket segs out) =
      (if eq_int i 100 then Return r else Raise AssertionError, after).
Proof.
  intros reply Hreq Hcodec Hlen Hsegs.
  set (sent1 := out ++ [frame_of (dumps (request method args))]).
  destruct (recvMsg_sent (dumps reply) tail segs sent1 Hlen Hsegs)
    as (segs' & Hrecv & Htail).
  assert (Hresp : read_resp loads (Socket segs sent1) =
                  (Return (r, i), Socket segs' sent1)).
  { rewrite (read_resp_decoded loads segs sent1 (dumps reply)
               (Socket segs' sent1) _ Hrecv Hcodec).
    cbn [assoc]. reflexivity. }
  exists segs'. split; [exact Htail |]. split; [exact Hresp |].
  unfold rpc, bind, send_req. rewrite (sendMsg_ok _ _ Hreq).
  cbn [inbound sent]. subst sent1. rewrite Hresp.
  unfold assert_. destruct (eq_int i 100); reflexivity.
Qed.

End Call.

(** C7, a reply with another id.  For a reply with the id 7 and the
    result 1, [rpc] does not return the result: it fails with
    [AssertionError]. *)
Lemma rpc_rejects_other_id :
  let reply := Json.dumps (Transport.response (PInt 1) (PInt 7)) in
  fst (Transport.rpc Json.dumps Json.loads (PStr (b "volumes")) (PList [])
         (Transport.Socket [Transport.frame_of reply] []))
  = Raise AssertionError.
Proof. vm_compute. reflexivity. Qed.


(** ** The polling loop *)

Section Polling.

Import PluginTest.

Variable INPROGRESS COMPLETE : Z.
Variable status_reply : pyval -> nat -> outcome (Z * pyval * pyval).
Variable free_reply : pyval -> outcome pyval.

Local Abbreviation wait_loop :=
  (wait_loop INPROGRESS COMPLETE status_reply free_reply).
Local Abbreviation wait_for_it :=
  (wait_for_it INPROGRESS COMPLETE status_reply free_reply).
Local Abbreviation in_progress_for :=
  (in_progress_for INPROGRESS status_reply).

Lemma polling_calls_succ (job : pyval) (n : nat) :
  polling_calls job (S n) = [JobStatus job; Sleep 250] ++ polling_calls job n.
Proof. reflexivity. Qed.

Lemma count_job_free_polling (job : pyval) (n : nat) (l : list call) :
  count_job_free (polling_calls job n ++ l) = count_job_free l.
Proof.
  induction n as [| n IH]; [reflexivity |].
  rewrite polling_calls_succ, <- app_assoc. exact IH.
Qed.

Lemma count_job_status_polling (job : pyval) (n : nat) (l : list call) :
  count_job_status (polling_calls job n ++ l) = (n + count_job_status l)%nat.
Proof.
  induction n as [| n IH]; [reflexivity |].
  rewrite polling_calls_succ, <- app_assoc.
  unfold count_job_status in *. cbn [app filter is_job_status length].
  rewrite IH. reflexivity.
Qed.

(** [n] rounds in progress: the loop polls and pauses [n] times and goes
    on with the budget that is left. *)
Lemma wait_loop_in_progress (msg : bytes) (job : pyval) (n : nat) :
  forall fuel c,
  in_progress_for job (polls c) n ->
  wait_loop (n + fuel) msg job c =
  wait_loop fuel msg job
    (Client (polls c + n) (calls c ++ polling_calls job n)).
Proof.
  induction n as [| n IH]; intros fuel c Hprog.
  - cbn [polling_calls repeat concat Nat.add]. rewrite app_nil_r, Nat.add_0_r.
    destruct c; reflexivity.
  - destruct (Hprog 0%nat ltac:(lia)) as (percent & i & H0).
    rewrite Nat.add_0_r in H0.
    change (S n + fuel)%nat with (S (n + fuel)). cbn [PluginTest.wait_loop].
    unfold bind at 1, job_status at 1. rewrite H0.
    rewrite Z.eqb_refl. unfold bind at 1, sleep at 1. cbn [polls calls].
    rewrite IH.
    + cbn [polls calls]. rewrite polling_calls_succ, <- !app_assoc.
      replace (S (polls c) + n)%nat with (polls c + S n)%nat by lia.
      reflexivity.
    + intros k Hk. cbn [polls].
      destruct (Hprog (S k) ltac:(lia)) as (p' & i' & Hk').
      exists p', i'. rewrite <- Hk'. f_equal. lia.
Qed.

(** The [COMPLETE] round after [n] rounds in progress. *)
Lemma wait_for_it_complete (msg : bytes) (job item : pyval) (n : nat)
      (percent r freed : pyval) (c : client) (fuel : nat) :
  INPROGRESS <> COMPLETE ->
  truthy job = true ->
  in_progress_for job (polls c) n ->
  status_reply job (polls c + n) = Return (COMPLETE, percent, r) ->
  free_reply job = Return freed ->
  (n < fuel)%nat ->
  wait_for_it fuel msg job item c =
    (Return r,
     Client (polls c + n + 1)
       (calls c ++ polling_calls job n ++ [JobStatus job; JobFree job])).
Proof.
  intros Hdiff Hjob Hprog Hdone Hfree Hfuel.
  unfold PluginTest.wait_for_it. rewrite Hjob. cbn [negb].
  replace fuel with (n + S (fuel - n - 1))%nat by lia.
  rewrite (wait_loop_in_progress msg job n _ c Hprog).
  cbn [PluginTest.wait_loop]. unfold bind at 1, job_status at 1.
  cbn [polls calls]. rewrite Hdone.
  replace (COMPLETE =? INPROGRESS) with false
    by (symmetry; apply Z.eqb_neq; congruence).
  rewrite Z.eqb_refl. unfold bind, job_free. cbn [polls calls].
  rewrite Hfree. unfold ret.
  rewrite <- !app_assoc. replace (polls c + n + 1)%nat with (S (polls c + n)) by lia.
  reflexivity.
Qed.

(** A round with any status other than the two tested, after [n] rounds
    in progress. *)
Lemma wait_for_it_other (msg : bytes) (job item : pyval) (n : nat)
      (s : Z) (percent i : pyval) (c : client) (fuel : nat) :
  truthy job = true ->
  in_progress_for job (polls c) n ->
  status_reply job (polls c + n) = Return (s, percent, i) ->
  s <> INPROGRESS -> s <> COMPLETE ->
  (n < fuel)%nat ->
  wait_for_it fuel msg job item c =
    (Raise (Exception (msg ++ b " job error code= " ++ Py.repr s)),
     Client (polls c + n + 1)
       (calls c ++ polling_calls job n ++ [JobStatus job])).
Proof.
  intros Hjob Hprog Hlast Hs1 Hs2 Hfuel.
  unfold PluginTest.wait_for_it. rewrite Hjob. cbn [negb].
  replace fuel with (n + S (fuel - n - 1))%nat by lia.
  rewrite (wait_loop_in_progress msg job n _ c Hprog).
  cbn [PluginTest.wait_loop]. unfold bind at 1, job_status at 1.
  cbn [polls calls]. rewrite Hlast.
  replace (s =? INPROGRESS) with false by (symmetry; apply Z.eqb_neq; exact Hs1).
  replace (s =? COMPLETE) with false by (symmetry; apply Z.eqb_neq; exact Hs2).
  unfold raise. rewrite <- !app_assoc.
  replace (polls c + n + 1)%nat with (S (polls c + n)) by lia.
  reflexivity.
Qed.

(** C8 (polling terminates).  With a job handle, a plug-in that reports
    the job in progress [n] times and then complete with the result
    [r], and a [job_free] that succeeds, [wait_for_it] returns [r]
    within any budget above [n], after [n + 1] [job_status] calls and
    exactly one [job_free]; without a job handle it returns the item at
    once and calls nothing. *)
Theorem polling_terminates (msg : bytes) (job item : pyval) (n : nat)
        (percent r freed : pyval) (c : client) :
  INPROGRESS <> COMPLETE ->
  truthy job = true ->
  in_progress_for job (polls c) n ->
  status_reply job (polls c + n) = Return (COMPLETE, percent, r) ->
  free_reply job = Return freed ->
  let made := polling_calls job n ++ [JobStatus job; JobFree job] in
  (forall fuel, (n < fuel)%nat ->
     wait_for_it fuel msg job item c =
       (Return r, Client (polls c + n + 1) (calls c ++ made))) /\
  count_job_free made = 1%nat /\
  count_job_status made = (n + 1)%nat /\
  (forall fuel c0, wait_for_it fuel msg PNone item c0 = (Return item, c0)).
Proof.
  intros Hdiff Hjob Hprog Hdone Hfree made.
  split; [| split; [| split]].
  - intros fuel Hfuel.
    apply (wait_for_it_complete msg job item n percent r freed c fuel); assumption.
  - unfold made. rewrite count_job_free_polling. reflexivity.
  - unfold made. rewrite count_job_status_polling. reflexivity.
  - intros fuel c0. reflexivity.
Qed.

(** C1, the two terminal cases as the code has them.  With a job handle
    and [n] rounds in progress first: on [COMPLETE] the loop calls
    [job_free] once and returns the carried result; on any other status
    (the [ERROR] case) it raises the failure with that status in its
    text and makes no [job_free] call, so the job is not freed. *)
Theorem wait_for_it_terminal (msg : bytes) (job item : pyval) (n : nat)
        (s : Z) (percent i freed : pyval) (c : client) :
  INPROGRESS <> COMPLETE ->
  truthy job = true ->
  in_progress_for job (polls c) n ->
  status_reply job (polls c + n) = Return (s, percent, i) ->
  free_reply job = Return freed ->
  forall fuel, (n < fuel)%nat ->
  (s = COMPLETE ->
   let made := polling_calls job n ++ [JobStatus job; JobFree job] in
   wait_for_it fuel msg job item c =
     (Return i, Client (polls c + n + 1) (calls c ++ made)) /\
   count_job_free made = 1%nat) /\
  (s <> INPROGRESS -> s <> COMPLETE ->
   let made := polling_calls job n ++ [JobStatus job] in
   wait_for_it fuel msg job item c =
     (Raise (Exception (msg ++ b " job error code= " ++ Py.repr s)),
      Client (polls c + n + 1) (calls c ++ made)) /\
   count_job_free made = 0%nat).
Proof.
  intros Hdiff Hjob Hprog Hlast Hfree fuel Hfuel. split.
  - intros Hs made. subst s. split.
    + apply (wait_for_it_complete msg job item n percent i freed c fuel); assumption.
    + unfold made. rewrite count_job_free_polling. reflexivity.
  - intros Hs1 Hs2 made. split.
    + apply (wait_for_it_other msg job item n s percent i c fuel); assumption.
    + unfold made. rewrite count_job_free_polling. reflexivity.
Qed.

End Polling.

(** ** Default implementations of the plug-in interface *)

Section PluginDefaults.

Import IPlugin.

Variable NO_SUPPORT : Z.

(** Every method of [IStorageAreaNetwork] raises [NO_SUPPORT]. *)
Lemma san_defaults_raise (m : san_method) (args : list pyval) :
  IStorageAreaNetwork NO_SUPPORT m args = raise_not_supported NO_SUPPORT.
Proof. destruct m; reflexivity. Qed.

(** So does every method of [INetworkAttachedStorage] except [fs]. *)
Lemma nas_defaults_raise (m : nas_method) (args : list pyval) :
  m <> fs ->
  INetworkAttachedStorage NO_SUPPORT m args = raise_not_supported NO_SUPPORT.
Proof. destruct m; (reflexivity || congruence). Qed.

(** And each of the four methods [INfs] adds. *)
Lemma nfs_defaults_raise (m : nfs_own_method) (args : list pyval) :
  INfs NO_SUPPORT (NfsOwn m) args = raise_not_supported NO_SUPPORT.
Proof. destruct m; reflexivity. Qed.

(** C2 at [fs].  The default [INetworkAttachedStorage.fs], also as
    inherited by [INfs], returns [None] for all arguments; it does not
    raise the [NO_SUPPORT] failure that the other defaults raise. *)
Theorem nas_fs_returns_none (args : list pyval) :
  INetworkAttachedStorage NO_SUPPORT fs args = Return PNone /\
  INfs NO_SUPPORT (NfsInherited fs) args = Return PNone /\
  INetworkAttachedStorage NO_SUPPORT fs args <> raise_not_supported NO_SUPPORT /\
  INetworkAttachedStorage NO_SUPPORT fs_delete args =
    Raise (LsmError (PInt NO_SUPPORT) (PStr (b "Not supported")) PNone).
Proof.
  split; [reflexivity |]. split; [reflexivity |].
  split; [discriminate | reflexivity].
Qed.

End PluginDefaults.

(** ** Command execution *)

Section CmdExec.

Import Hpsa.

Variable Popen : list bytes -> outcome process.

(** C10.  For a command that ran to its end, [cmd_exec] returns the
    stripped standard output when the exit status is zero, and only
    then; for every other exit status it raises [ExecError] with the
    command words joined by spaces, the exit status, and the stripped
    standard output and standard error. *)
Theorem cmd_exec_spec (cmds : list bytes) (p : process) :
  Popen cmds = Return p ->
  let out := Py.strip (Py.join [] (stdout p)) in
  let err := Py.strip (Py.join [] (stderr p)) in
  (returncode p = 0 -> cmd_exec Popen cmds = Return out) /\
  (returncode p <> 0 ->
   cmd_exec Popen cmds =
     Raise (ExecError (Py.join (b " ") cmds) (returncode p) out err)) /\
  (forall v, cmd_exec Popen cmds = Return v -> returncode p = 0 /\ v = out).
Proof.
  intros Hrun out err. unfold cmd_exec. rewrite Hrun. fold out err.
  destruct (returncode p =? 0) eqn:Hrc; cbn [negb].
  - apply Z.eqb_eq in Hrc. split; [reflexivity |]. split; [congruence |].
    intros v Hv. split; [exact Hrc | congruence].
  - apply Z.eqb_neq in Hrc. split; [congruence |]. split; [reflexivity |].
    intros v Hv. discriminate Hv.
Qed.

End CmdExec.

(** * Instances on concrete inputs *)

Ltac by_computation :=
  vm_compute; repeat split; solve [reflexivity | discriminate].

Section Instances.

Import Transport Examples.

(** The request of the transport test, sent and read back. *)
Lemma frame_round_trip_witness :
  Json.loads (Json.dumps test_request) = Some test_request /\
  1 <= len (Json.dumps test_request) < 10 ^ 10 /\
  (send_req Json.dumps (PStr (b "test")) (PStr tricky_text) (Socket [] []) =
     (Return tt, Socket [] [frame_of (Json.dumps test_request)]) /\
   forall segs out rest,
     concat segs = frame_of (Json.dumps test_request) ++ rest ->
     exists v segs',
       read_req Json.loads (Socket segs out) = (Return v, Socket segs' out) /\
       concat segs' = rest /\
       v = test_request /\
       (forall s, getitem v (b "method") s = (Return (PStr (b "test")), s)) /\
       (forall s, getitem v (b "id") s = (Return (PInt 100), s)) /\
       (forall s, getitem v (b "params") s = (Return (PStr tricky_text), s))).
Proof.
  assert (H1 : Json.loads (Json.dumps test_request) = Some test_request)
    by (vm_compute; reflexivity).
  assert (H2 : 1 <= len (Json.dumps test_request) < 10 ^ 10)
    by by_computation.
  split; [exact H1 |]. split; [exact H2 |].
  exact (frame_round_trip Json.dumps Json.loads (b "test") (PStr tricky_text)
           (Socket [] []) H1 H2).
Defined.


(** A peer that closes after four header bytes, and one that closes two
    bytes into a body of five. *)
Lemma eof_distinction_witness :
  ends_with_eof Json.loads (Socket [b "0000"] []) /\
  ends_with_eof Json.loads (Socket [b "00000"; b "00005{"; b "}"] []).
Proof.
  split.
  - apply (proj1 (eof_distinction Json.loads [b "0000"] [])).
    by_computation.
  - apply (proj2 (eof_distinction Json.loads [b "00000"; b "00005{"; b "}"] [])
             (b "0000000005") (b "{}") 5); by_computation.
Defined.

(** A frame whose header is ten zeros. *)
Lemma zero_length_frame_witness :
  length (b "0000000000") = HDR_LEN /\
  Py.int (b "0000000000") = Some 0 /\
  read_req Json.loads (Socket [b "0000000000{}"] []) =
    (Raise (ValueError (b "Trying to read less than 1 byte!")),
     Socket [b "{}"] []).
Proof.
  split; [reflexivity |]. split; [reflexivity |].
  destruct (zero_length_frame_rejected Json.loads (b "0000000000") (b "{}")
              [b "0000000000{}"] [] eq_refl eq_refl eq_refl)
    as (segs' & Hhdr & _ & _ & _ & Hreq & _).
  rewrite Hreq. vm_compute in Hhdr. injection Hhdr as <-. reflexivity.
Defined.

(** The two-byte message [{}] is written behind [0000000002]. *)
Lemma sendMsg_frame_witness :
  1 <= len (b "{}") < 10 ^ 10 /\
  exists hdr,
    sendMsg (Some (b "{}")) (Socket [] []) =
      (Return tt, Socket [] [hdr ++ b "{}"]) /\
    length hdr = 10%nat /\ Py.int hdr = Some 2.
Proof.
  assert (H : 1 <= len (b "{}") < 10 ^ 10) by by_computation.
  split; [exact H |].
  destruct (proj1 (sendMsg_frame (Socket [] [])) (b "{}") H)
    as (hdr & Hsend & Hlen & _ & _ & Hint).
  exists hdr. split; [exact Hsend |]. split; [exact Hlen | exact Hint].
Defined.

(** A reply with id 7 to a [volumes] call. *)
Lemma rpc_checks_id_witness :
  1 <= len (Json.dumps (request (PStr (b "volumes")) (PList []))) /\
  Json.loads (Json.dumps reply_7) = Some reply_7 /\
  1 <= len (Json.dumps reply_7) < 10 ^ 10 /\
  fst (rpc Json.dumps Json.loads (PStr (b "volumes")) (PList [])
         (Socket [frame_of (Json.dumps reply_7)] [])) =
    Raise AssertionError.
Proof.
  assert (H1 : 1 <= len (Json.dumps (request (PStr (b "volumes")) (PList []))))
    by by_computation.
  assert (H2 : Json.loads (Json.dumps reply_7) = Some reply_7)
    by (vm_compute; reflexivity).
  assert (H3 : 1 <= len (Json.dumps reply_7) < 10 ^ 10) by by_computation.
  split; [exact H1 |]. split; [exact H2 |]. split; [exact H3 |].
  destruct (rpc_checks_id Json.dumps Json.loads (PStr (b "volumes")) (PList [])
              (PInt 1) (PInt 7) [frame_of (Json.dumps reply_7)] [] [] []
              H1 H2 H3 (eq_sym (app_nil_r _)))
    as (segs' & _ & _ & Hrpc).
  rewrite Hrpc. reflexivity.
Defined.

(** A job that completes at the third poll. *)
Lemma polling_terminates_witness :
  (1 <> 2) /\
  truthy (PStr (b "JOB_1")) = true /\
  PluginTest.wait_for_it 1 2 completing free_ok 3 (b "volume_create")
    (PStr (b "JOB_1")) PNone (PluginTest.Client 0 []) =
    (Return (PStr (b "VOL_1")),
     PluginTest.Client 3
       (PluginTest.polling_calls (PStr (b "JOB_1")) 2 ++
        [PluginTest.JobStatus (PStr (b "JOB_1"));
         PluginTest.JobFree (PStr (b "JOB_1"))])).
Proof.
  split; [discriminate |]. split; [reflexivity |].
  assert (Hprog : PluginTest.in_progress_for 1 completing (PStr (b "JOB_1")) 0 2).
  { intros k Hk. destruct k as [| [| k]]; [| | lia];
      eexists; eexists; reflexivity. }
  apply (proj1 (polling_terminates 1 2 completing free_ok (b "volume_create")
                  (PStr (b "JOB_1")) PNone 2 (PInt 100) (PStr (b "VOL_1")) PNone
                  (PluginTest.Client 0 [])
                  ltac:(discriminate) eq_refl Hprog eq_refl eq_refl) 3%nat).
  lia.
Defined.

(** A job found failed at the first poll: the failure is raised and the
    only call made is that [job_status]. *)
Lemma wait_for_it_terminal_witness :
  (1 <> 2) /\ (3 <> 1) /\ (3 <> 2) /\
  PluginTest.wait_for_it 1 2 failing free_ok 1 (b "volume_create")
    (PStr (b "JOB_1")) PNone (PluginTest.Client 0 []) =
    (Raise (Exception (b "volume_create job error code= 3")),
     PluginTest.Client 1 [PluginTest.JobStatus (PStr (b "JOB_1"))]).
Proof.
  split; [discriminate |]. split; [discriminate |]. split; [discriminate |].
  assert (Hprog : PluginTest.in_progress_for 1 failing (PStr (b "JOB_1")) 0 0).
  { intros k Hk. lia. }
  apply (proj2 (wait_for_it_terminal 1 2 failing free_ok (b "volume_create")
                  (PStr (b "JOB_1")) PNone 0 3 (PInt 0) PNone PNone
                  (PluginTest.Client 0 [])
                  ltac:(discriminate) eq_refl Hprog eq_refl eq_refl 1%nat
                  ltac:(lia)));
    discriminate.
Defined.

(** A command that succeeds and one that fails. *)
Lemma cmd_exec_spec_witness :
  Hpsa.cmd_exec ran_ok [b "hpssacli"; b "ctrl"; b "all"; b "show"] =
    Return (b "Smart Array P410") /\
  Hpsa.cmd_exec ran_badly [b "hpssacli"; b "ctrl"; b "all"; b "show"] =
    Raise (ExecError (b "hpssacli ctrl all show") 1 [] (b "Error: no controller")).
Proof.
  split.
  - apply (proj1 (cmd_exec_spec ran_ok [b "hpssacli"; b "ctrl"; b "all"; b "show"]
                    _ eq_refl)).
    reflexivity.
  - apply (proj1 (proj2 (cmd_exec_spec ran_badly
                           [b "hpssacli"; b "ctrl"; b "all"; b "show"] _ eq_refl))).
    discriminate.
Defined.

End Instances.

(** * Further properties of the transport *)

Section ReadingExactly.

Import Transport.

(** Whatever the loop returns is the accumulator followed by bytes taken
    from the front of the pending ones, [l] bytes in all; nothing is
    written. *)
Lemma readAll_loop_returns (fuel : nat) :
  forall l acc s data s',
  len acc <= l ->
  readAll_loop fuel l acc s = (Return data, s') ->
  exists taken,
    data = acc ++ taken /\ len data = l /\
    taken ++ concat (inbound s') = concat (inbound s) /\
    sent s' = sent s.
Proof.
  induction fuel as [| fuel IH]; intros l acc s data s' Hacc Hrun;
    cbn [readAll_loop] in Hrun;
    destruct (len acc <? l) eqn:Hlt.
  - discriminate Hrun.
  - apply Z.ltb_ge in Hlt. injection Hrun as <- <-.
    exists []. rewrite app_nil_r. repeat split; lia.
  - apply Z.ltb_lt in Hlt. unfold bind, recv in Hrun.
    destruct (recv_from (Z.to_nat (l - len acc)) (inbound s)) as [r segs1] eqn:Hrecv.
    apply recv_from_spec in Hrecv as (Hcat & Hle & _).
    destruct r as [| c r]; [discriminate Hrun |].
    apply IH in Hrun.
    + destruct Hrun as (taken & Hdata & Hlen & Htaken & Hsent).
      cbn [inbound sent] in Htaken, Hsent.
      exists ((c :: r) ++ taken). rewrite app_assoc. split; [exact Hdata |].
      split; [exact Hlen |]. split; [| exact Hsent].
      rewrite <- app_assoc, Htaken. exact Hcat.
    + rewrite len_app. unfold len at 2. lia.
  - apply Z.ltb_ge in Hlt. injection Hrun as <- <-.
    exists []. rewrite app_nil_r. repeat split; lia.
Qed.

(** X1.  [__readAll(l)] returns exactly [l] bytes or nothing: whenever
    it returns, the result has length [l >= 1], it is the front of the
    bytes that were pending, the bytes behind it are still pending, and
    nothing was written. *)
Theorem readAll_returns_exactly (l : Z) (s s' : socket) (data : bytes) :
  readAll l s = (Return data, s') ->
  1 <= l /\ len data = l /\
  data ++ concat (inbound s') = concat (inbound s) /\
  sent s' = sent s.
Proof.
  unfold readAll. destruct (l <? 1) eqn:Hl; [discriminate |].
  apply Z.ltb_ge in Hl. intros Hrun.
  apply readAll_loop_returns in Hrun; [| unfold len; simpl; lia].
  destruct Hrun as (taken & Hdata & Hlen & Htaken & Hsent).
  cbn [app] in Hdata. subst taken. auto.
Qed.

(** X2.  For [l >= 1], [__readAll(l)] is decided by the number of
    pending bytes alone, not by their segmentation: with at least [l]
    pending it returns the first [l] of them and leaves the others; with
    fewer it raises [SocketEOF]. *)
Theorem readAll_by_pending (l : Z) (segs out : list bytes) :
  1 <= l ->
  (l <= len (concat segs) ->
   exists segs',
     readAll l (Socket segs out) =
       (Return (firstn (Z.to_nat l) (concat segs)), Socket segs' out) /\
     concat segs' = skipn (Z.to_nat l) (concat segs)) /\
  (len (concat segs) < l ->
   exists segs', readAll l (Socket segs out) = (Raise SocketEOF, Socket segs' out)).
Proof.
  intros Hl. split.
  - intros Hen. apply readAll_ok; [exact Hl | |].
    + unfold len in *. rewrite length_firstn. lia.
    + symmetry. apply firstn_skipn.
  - apply readAll_eof.
Qed.

(** X3.  [__recvMsg] returns only whole, non-empty payloads: whenever it
    returns, the bytes consumed are a ten-byte header that [int] reads
    as the length of the payload, followed by the payload. *)
Theorem recvMsg_returns_frame (s s' : socket) (data : bytes) :
  recvMsg s = (Return data, s') ->
  exists hdr,
    length hdr = HDR_LEN /\ Py.int hdr = Some (len data) /\ 1 <= len data /\
    hdr ++ data ++ concat (inbound s') = concat (inbound s) /\
    sent s' = sent s.
Proof.
  unfold recvMsg, bind. intros Hrun.
  destruct (readAll (Z.of_nat HDR_LEN) s) as [[hdr | e |] s1] eqn:Hhdr;
    try discriminate Hrun.
  apply readAll_returns_exactly in Hhdr as (_ & Hlen1 & Hcat1 & Hsent1).
  unfold int_of_header in Hrun.
  destruct (Py.int hdr) as [n |] eqn:Hint; [| discriminate Hrun].
  unfold ret in Hrun.
  apply readAll_returns_exactly in Hrun as (Hn & Hlen2 & Hcat2 & Hsent2).
  exists hdr. split; [unfold len in Hlen1; lia |].
  split; [rewrite Hlen2; exact Hint |]. split; [lia |].
  split; [rewrite Hcat2; exact Hcat1 | congruence].
Qed.

Section Decoder.

Variable loads : bytes -> option pyval.

(** X4.  The [len(data)] test of [read_req] never fails: [read_req] is
    [__recvMsg] followed by the decoder, so it returns [None] only when
    the decoder itself gives [None] for a payload. *)
Theorem read_req_always_decodes (s : socket) :
  read_req loads s = (data <- recvMsg ;; json_loads loads data) s.
Proof.
  unfold read_req, bind.
  destruct (recvMsg s) as [[data | e |] s1] eqn:Hrecv; try reflexivity.
  apply recvMsg_returns_frame in Hrecv as (hdr & _ & _ & Hpos & _).
  replace (0 <? len data) with true by (symmetry; apply Z.ltb_lt; lia).
  reflexivity.
Qed.


End Decoder.

End ReadingExactly.

Section FrameStream.

Import Transport Session.

Lemma send_each_frames (msgs : list bytes) :
  forall s,
  Forall framable msgs ->
  send_each msgs s =
    (Return tt, Socket (inbound s) (sent s ++ map frame_of msgs)).
Proof.
  induction msgs as [| m msgs IH]; intros s Hall.
  - cbn [send_each map]. rewrite app_nil_r. destruct s; reflexivity.
  - inversion Hall as [| ? ? Hm Hrest]; subst.
    cbn [send_each]. unfold bind. rewrite (sendMsg_ok m s (proj1 Hm)).
    rewrite (IH _ Hrest). cbn [inbound sent map].
    rewrite <- app_assoc. reflexivity.
Qed.

Lemma recv_each_frames (msgs : list bytes) :
  forall segs out rest,
  Forall framable msgs ->
  concat segs = concat (map frame_of msgs) ++ rest ->
  exists segs',
    recv_each (length msgs) (Socket segs out) =
      (Return msgs, Socket segs' out) /\
    concat segs' = rest.
Proof.
  induction msgs as [| m msgs IH]; intros segs out rest Hall Hsegs.
  - exists segs. split; [reflexivity | exact Hsegs].
  - inversion Hall as [| ? ? Hm Hrest]; subst.
    cbn [map concat] in Hsegs. rewrite <- app_assoc in Hsegs.
    destruct (recvMsg_sent m _ segs out Hm Hsegs) as (segs1 & Hrecv & Hcat1).
    destruct (IH segs1 out rest Hrest Hcat1) as (segs2 & Hrun & Hcat2).
    exists segs2. split; [| exact Hcat2].
    cbn [length recv_each]. unfold bind. rewrite Hrecv, Hrun. reflexivity.
Qed.

(** X6.  Frames need no delimiter.  Messages of one to 9999999999 bytes
    written one after the other by [__sendMsg] make one buffer each, and
    a peer that gets those bytes, in any segmentation, reads the same
    messages in the same order with as many [__recvMsg] calls; one call
    more finds the end of the stream and raises [SocketEOF]. *)
Theorem frames_arrive_in_order (msgs : list bytes) (inb : list bytes) :
  Forall framable msgs ->
  send_each msgs (Socket inb []) =
    (Return tt, Socket inb (map frame_of msgs)) /\
  forall segs out,
    concat segs = concat (map frame_of msgs) ->
    exists segs',
      recv_each (length msgs) (Socket segs out) =
        (Return msgs, Socket segs' out) /\
      fst (recvMsg (Socket segs' out)) = Raise SocketEOF.
Proof.
  intros Hall. split.
  - rewrite (send_each_frames msgs _ Hall). reflexivity.
  - intros segs out Hsegs.
    destruct (recv_each_frames msgs segs out [] Hall) as (segs' & Hrun & Hcat).
    { rewrite app_nil_r. exact Hsegs. }
    exists segs'. split; [exact Hrun |].
    destruct (readAll_eof (Z.of_nat HDR_LEN) segs' out) as (segs2 & Heof).
    { rewrite Hcat. unfold len, HDR_LEN. simpl. lia. }
    unfold recvMsg, bind. rewrite Heof. reflexivity.
Qed.

Variable dumps : pyval -> bytes.
Variable loads : bytes -> option pyval.

(** X7.  A response sent with [send_resp(result, id)], whatever the id,
    comes out of the peer's [read_resp] as the pair [(result, id)], in
    any segmentation, provided the codec carries the response unchanged
    in one to 9999999999 bytes. *)
Theorem response_round_trip (result id : pyval) (sender : socket) :
  let r := response result id in
  loads (dumps r) = Some r ->
  framable (dumps r) ->
  send_resp dumps result id sender =
    (Return tt, Socket (inbound sender) (sent sender ++ [frame_of (dumps r)])) /\
  forall segs out rest,
    concat segs = frame_of (dumps r) ++ rest ->
    exists segs',
      read_resp loads (Socket segs out) =
        (Return (result, id), Socket segs' out) /\
      concat segs' = rest.
Proof.
  intros r Hcodec Hlen. split.
  - unfold send_resp. fold r. apply sendMsg_ok. exact (proj1 Hlen).
  - intros segs out rest Hsegs.
    destruct (recvMsg_sent (dumps r) rest segs out Hlen Hsegs)
      as (segs' & Hrecv & Hrest).
    exists segs'. split; [| exact Hrest].
    rewrite (read_resp_decoded loads segs out (dumps r) (Socket segs' out) _
               Hrecv Hcodec).
    cbn [assoc]. reflexivity.
Qed.

(** X8.  What [read_resp] does with a reply that is not a proper
    response: a payload the decoder rejects raises [ValueError]; a
    decoded value that is no dictionary raises [TypeError]; a dictionary
    with ['result'] but no ['id'] raises [KeyError('id')]; one with
    neither ['result'] nor ['error'] raises [KeyError('error')].  In
    each case the frame has been consumed. *)
Theorem read_resp_malformed (segs out : list bytes) (data : bytes)
        (peer : socket) :
  recvMsg (Socket segs out) = (Return data, peer) ->
  (loads data = None ->
   exists msg,
     read_resp loads (Socket segs out) = (Raise (ValueError msg), peer)) /\
  (forall v, loads data = Some v ->
     (forall d, v <> PDict d) ->
     read_resp loads (Socket segs out) = (Raise TypeError, peer)) /\
  (forall d r, loads data = Some (PDict d) ->
     assoc (b "result") d = Some r -> assoc (b "id") d = None ->
     read_resp loads (Socket segs out) = (Raise (KeyError (b "id")), peer)) /\
  (forall d, loads data = Some (PDict d) ->
     assoc (b "result") d = None -> assoc (b "error") d = None ->
     read_resp loads (Socket segs out) = (Raise (KeyError (b "error")), peer)).
Proof.
  intros Hrecv. split; [| split; [| split]].
  - intros Hload. unfold read_resp, bind. rewrite Hrecv.
    unfold json_loads. rewrite Hload. eexists. reflexivity.
  - intros v Hload Hnd. unfold read_resp, bind. rewrite Hrecv.
    unfold json_loads. rewrite Hload. unfold ret.
    destruct v; try reflexivity. exfalso. apply (Hnd d). reflexivity.
  - intros d r Hload Hr Hi.
    rewrite (read_resp_decoded loads segs out data peer d Hrecv Hload), Hr, Hi.
    reflexivity.
  - intros d Hload Hr He.
    rewrite (read_resp_decoded loads segs out data peer d Hrecv Hload), Hr, He.
    reflexivity.
Qed.

(** X9.  [rpc] answered by a fault: when the reply to the request is
    the fault [send_error(id, c, m, d)] sends, [rpc] has written the
    request frame, consumed the reply and raises [LsmError] with the
    code, message and data of the fault; the id of a fault is not
    checked. *)
Theorem rpc_raises_fault (method args id c m d : pyval)
        (segs out : list bytes) (tail : bytes) :
  let e := fault id c m d in
  1 <= len (dumps (request method args)) ->
  loads (dumps e) = Some e ->
  framable (dumps e) ->
  concat segs = frame_of (dumps e) ++ tail ->
  exists segs',
    concat segs' = tail /\
    rpc dumps loads method args (Socket segs out) =
      (Raise (LsmError c m d),
       Socket segs' (out ++ [frame_of (dumps (request method args))])).
Proof.
  intros e Hreq Hcodec Hlen Hsegs.
  destruct (recvMsg_sent (dumps e) tail segs
              (out ++ [frame_of (dumps (request method args))]) Hlen Hsegs)
    as (segs' & Hrecv & Htail).
  exists segs'. split; [exact Htail |].
  unfold rpc, bind, send_req. rewrite (sendMsg_ok _ _ Hreq).
  cbn [inbound sent].
  rewrite (read_resp_decoded loads _ _ (dumps e) _ _ Hrecv Hcodec).
  reflexivity.
Qed.

End FrameStream.

(** * The echo server *)

Section Echo.

Import Transport EchoServer.

Variable dumps : pyval -> bytes.
Variable loads : bytes -> option pyval.

Local Abbreviation serve_loop := (serve_loop dumps loads).
Local Abbreviation server := (server dumps loads).
Local Abbreviation readable := (readable dumps loads).
Local Abbreviation answered := (answered dumps).
Local Abbreviation request_frame := (request_frame dumps).
Local Abbreviation reply_frame := (reply_frame dumps).

Lemma bytes_eqb_eq (x y : bytes) : bytes_eqb x y = true <-> x = y.
Proof.
  unfold bytes_eqb. destruct (list_eq_dec ascii_dec x y); split;
    congruence.
Qed.

Lemma bytes_eqb_neq (x y : bytes) : x <> y -> bytes_eqb x y = false.
Proof.
  intros H. destruct (bytes_eqb x y) eqn:E; [| reflexivity].
  apply bytes_eqb_eq in E. contradiction.
Qed.

(** The server reads a readable request off the front of the stream. *)
Lemma read_req_request (q : bytes * pyval) (rest : bytes) (segs out : list bytes) :
  readable q ->
  concat segs = request_frame q ++ rest ->
  exists segs',
    read_req loads (Socket segs out) =
      (Return (request (PStr (fst q)) (snd q)), Socket segs' out) /\
    concat segs' = rest.
Proof.
  intros [Hcodec Hlen] Hsegs. unfold read_req, bind.
  destruct (recvMsg_sent _ rest segs out Hlen Hsegs) as (segs' & -> & Hrest).
  replace (0 <? len (dumps (request (PStr (fst q)) (snd q)))) with true
    by (symmetry; apply Z.ltb_lt; lia).
  unfold json_loads. rewrite Hcodec. exists segs'. split; [reflexivity | exact Hrest].
Qed.

Lemma bind_return {St A B} (m : M St A) (k : A -> M St B) (s s' : St) (a : A) :
  m s = (Return a, s') -> bind m k s = k a s'.
Proof. intros H. unfold bind. rewrite H. reflexivity. Qed.

(** One answered request: the body of the loop writes the frame of the
    answer. *)
Lemma answer_written (q : bytes * pyval) (s : socket) :
  answered q ->
  let msg := request (PStr (fst q)) (snd q) in
  (if bytes_eqb (fst q) (b "error") then
     i <- getitem msg (b "id") ;;
     p <- getitem msg (b "params") ;;
     c <- getitem p (b "errorcode") ;;
     p' <- getitem msg (b "params") ;;
     e <- getitem p' (b "errormsg") ;;
     send_error dumps i c e PNone
   else
     p <- getitem msg (b "params") ;;
     send_resp dumps p (PInt 100)) s =
  (Return tt, Socket (inbound s) (sent s ++ [reply_frame q])).
Proof.
  destruct q as [m a]. intros [_ (r & Hr & Hlen)] msg.
  unfold EchoServer.reply_frame. cbn [fst snd] in *. rewrite Hr.
  unfold echo_reply in Hr. subst msg.
  destruct (bytes_eqb m (b "error")) eqn:Herr.
  - destruct a as [| | | | | d]; try discriminate Hr.
    destruct (assoc (b "errorcode") d) as [c |] eqn:Hc; [| discriminate Hr].
    destruct (assoc (b "errormsg") d) as [e |] eqn:He; [| discriminate Hr].
    injection Hr as <-.
    erewrite bind_return by reflexivity.
    erewrite bind_return by reflexivity.
    erewrite bind_return by (unfold getitem; rewrite Hc; reflexivity).
    erewrite bind_return by reflexivity.
    erewrite bind_return by (unfold getitem; rewrite He; reflexivity).
    unfold send_error. apply sendMsg_ok. exact Hlen.
  - injection Hr as <-.
    erewrite bind_return by reflexivity.
    unfold send_resp. apply sendMsg_ok. exact Hlen.
Qed.

(** The loop over a script: entered with the first request of
    [reqs ++ [done]], the others pending behind it, it answers every
    request of [reqs] in order and stops at ['done']. *)
Lemma serve_loop_script (last : pyval) (tail : bytes) (reqs : list (bytes * pyval)) :
  let done := (b "done", last) in
  forall segs out fuel,
  Forall answered reqs ->
  Forall readable (reqs ++ [done]) ->
  concat segs = concat (map request_frame (tl (reqs ++ [done]))) ++ tail ->
  (length reqs < fuel)%nat ->
  exists segs',
    serve_loop fuel
      (request (PStr (fst (hd done (reqs ++ [done]))))
               (snd (hd done (reqs ++ [done]))))
      (Socket segs out) =
      (Return (request (PStr (b "done")) last),
       Socket segs' (out ++ map reply_frame reqs)) /\
    concat segs' = tail.
Proof.
  intros done. induction reqs as [| q reqs IH];
    intros segs out fuel Hans Hread Hsegs Hfuel;
    (destruct fuel as [| fuel]; [simpl in Hfuel; lia |]).
  - cbn [app hd tl map concat fst snd] in *. exists segs.
    rewrite app_nil_r. split; [reflexivity | exact Hsegs].
  - inversion Hans as [| ? ? Hq Hans']; subst.
    inversion Hread as [| ? ? _ Hread']; subst.
    cbn [app hd tl] in *.
    assert (Hnext : exists q', reqs ++ [done] = q' :: tl (reqs ++ [done]) /\
                               hd done (reqs ++ [done]) = q').
    { destruct reqs; eexists; split; reflexivity. }
    destruct Hnext as (q' & Hsplit & Hhd).
    assert (Hq' : readable q').
    { rewrite Hsplit in Hread'. inversion Hread'; assumption. }
    rewrite Hsplit in Hsegs. cbn [tl map concat] in Hsegs.
    rewrite <- app_assoc in Hsegs.
    destruct (read_req_request q' _ segs (out ++ [reply_frame q]) Hq' Hsegs)
      as (segs1 & Hrd & Hcat1).
    cbn [EchoServer.serve_loop].
    erewrite bind_return by reflexivity.
    cbn [str_eq]. rewrite (bytes_eqb_neq _ _ (proj1 Hq)). cbn [negb].
    erewrite bind_return by reflexivity. cbn [str_eq].
    erewrite bind_return by (apply (answer_written q (Socket segs out) Hq)).
    cbn [inbound sent].
    erewrite bind_return by (exact Hrd).
    rewrite <- Hhd in *.
    destruct (IH segs1 (out ++ [reply_frame q]) fuel Hans' Hread')
      as (segs' & Hrun & Htail).
    + rewrite Hsplit. cbn [tl]. rewrite Hsplit in Hcat1. cbn [tl] in Hcat1.
      exact Hcat1.
    + simpl in Hfuel. lia.
    + exists segs'. rewrite Hrun. cbn [map]. rewrite <- app_assoc.
      split; [reflexivity | exact Htail].
Qed.

(** X10.  The echo server over a script.  Its connection holding, in any
    segmentation, the requests [reqs] (each other than ['done'], and for
    the method ['error'] carrying the two error parameters) followed by
    a ['done'] request, [server] answers every request in order (the
    parameters echoed with id 100, or the fault for ['error']), answers
    ['done'] with its parameters, closes the socket and returns, within
    any budget above the number of requests; bytes behind the ['done']
    request stay unread. *)
Theorem server_answers_script (reqs : list (bytes * pyval)) (last : pyval)
        (tail : bytes) (segs out : list bytes) (fuel : nat) :
  let done := (b "done", last) in
  Forall answered reqs ->
  Forall readable (reqs ++ [done]) ->
  1 <= len (dumps (response last (PInt 100))) ->
  concat segs = concat (map request_frame (reqs ++ [done])) ++ tail ->
  (length reqs < fuel)%nat ->
  exists segs',
    server fuel (Endpoint (Socket segs out) false) =
      (Return tt,
       Endpoint
         (Socket segs'
            (out ++ map reply_frame reqs ++
             [frame_of (dumps (response last (PInt 100)))]))
         true) /\
    concat segs' = tail.
Proof.
  intros done Hans Hread Hlast Hsegs Hfuel.
  assert (Hfirst : exists q, reqs ++ [done] = q :: tl (reqs ++ [done]) /\
                             hd done (reqs ++ [done]) = q).
  { destruct reqs; eexists; split; reflexivity. }
  destruct Hfirst as (q & Hsplit & Hhd).
  assert (Hq : readable q).
  { rewrite Hsplit in Hread. inversion Hread; assumption. }
  pose proof Hsegs as Hsegs1. rewrite Hsplit in Hsegs1.
  cbn [map concat] in Hsegs1. rewrite <- app_assoc in Hsegs1.
  destruct (read_req_request q _ segs out Hq Hsegs1) as (segs1 & Hrd & Hcat1).
  destruct (serve_loop_script last tail reqs segs1 out fuel Hans Hread Hcat1 Hfuel)
    as (segs' & Hloop & Htail).
  fold done in Hloop. rewrite Hhd in Hloop.
  exists segs'. split; [| exact Htail].
  unfold EchoServer.server.
  erewrite bind_return
    by (unfold on_conn; cbn [conn closed]; rewrite Hrd; reflexivity).
  unfold try_finally, on_conn. cbn [conn closed].
  erewrite bind_return by (exact Hloop).
  erewrite bind_return by reflexivity.
  unfold send_resp. rewrite (sendMsg_ok _ _ Hlast). cbn [inbound sent].
  unfold close. cbn [conn]. rewrite <- app_assoc. reflexivity.
Qed.

End Echo.

(** * Further properties of the polling loop *)

Section PollingEdges.

Import PluginTest.

Variable INPROGRESS COMPLETE : Z.
Variable status_reply : pyval -> nat -> outcome (Z * pyval * pyval).
Variable free_reply : pyval -> outcome pyval.

Local Abbreviation wait_loop :=
  (wait_loop INPROGRESS COMPLETE status_reply free_reply).
Local Abbreviation wait_for_it :=
  (wait_for_it INPROGRESS COMPLETE status_reply free_reply).
Local Abbreviation in_progress_for :=
  (in_progress_for INPROGRESS status_reply).

(** X11.  The loop has no time-out of its own: as long as the plug-in
    reports the job in progress, [wait_for_it] neither returns nor
    raises; a budget of [fuel] iterations is used up by [fuel] polls and
    [fuel] pauses of 250 ms, and [job_free] is not called. *)
Theorem wait_for_it_keeps_polling (msg : bytes) (job item : pyval)
        (fuel : nat) (c : client) :
  truthy job = true ->
  in_progress_for job (polls c) fuel ->
  wait_for_it fuel msg job item c =
    (Diverge, Client (polls c + fuel) (calls c ++ polling_calls job fuel)) /\
  count_job_free (polling_calls job fuel) = 0%nat /\
  count_job_status (polling_calls job fuel) = fuel.
Proof.
  intros Hjob Hprog. split; [| split].
  - unfold PluginTest.wait_for_it. rewrite Hjob. cbn [negb].
    replace fuel with (fuel + 0)%nat at 1 by lia.
    rewrite (wait_loop_in_progress INPROGRESS COMPLETE status_reply free_reply
               msg job fuel 0 c Hprog).
    reflexivity.
  - rewrite <- (app_nil_r (polling_calls job fuel)).
    rewrite count_job_free_polling. reflexivity.
  - rewrite <- (app_nil_r (polling_calls job fuel)).
    rewrite count_job_status_polling. cbn. lia.
Qed.

(** X12.  A failure of a call made by the loop goes through unchanged.
    After [n] rounds in progress: if [job_status] raises, [wait_for_it]
    raises the same exception and has made no [job_free] call; if the
    job is complete but [job_free] raises, [wait_for_it] raises that
    exception instead of returning the result, after its one [job_free]
    call. *)
Theorem wait_for_it_call_fails (msg : bytes) (job item : pyval) (n : nat)
        (e : exn) (c : client) (fuel : nat) :
  truthy job = true ->
  in_progress_for job (polls c) n ->
  (n < fuel)%nat ->
  (status_reply job (polls c + n) = Raise e ->
   wait_for_it fuel msg job item c =
     (Raise e,
      Client (polls c + n + 1)
        (calls c ++ polling_calls job n ++ [JobStatus job]))) /\
  (forall percent r,
     INPROGRESS <> COMPLETE ->
     status_reply job (polls c + n) = Return (COMPLETE, percent, r) ->
     free_reply job = Raise e ->
     wait_for_it fuel msg job item c =
       (Raise e,
        Client (polls c + n + 1)
          (calls c ++ polling_calls job n ++ [JobStatus job; JobFree job]))).
Proof.
  intros Hjob Hprog Hfuel.
  assert (Hstart : wait_for_it fuel msg job item c =
                   wait_loop (S (fuel - n - 1)) msg job
                     (Client (polls c + n) (calls c ++ polling_calls job n))).
  { unfold PluginTest.wait_for_it. rewrite Hjob. cbn [negb].
    replace fuel with (n + S (fuel - n - 1))%nat at 1 by lia.
    apply wait_loop_in_progress. exact Hprog. }
  rewrite Hstart. cbn [PluginTest.wait_loop]. split.
  - intros Hst. unfold bind at 1, job_status at 1. cbn [polls calls].
    rewrite Hst. rewrite <- app_assoc.
    replace (polls c + n + 1)%nat with (S (polls c + n)) by lia. reflexivity.
  - intros percent r Hdiff Hst Hfree.
    unfold bind at 1, job_status at 1. cbn [polls calls]. rewrite Hst.
    replace (COMPLETE =? INPROGRESS) with false
      by (symmetry; apply Z.eqb_neq; congruence).
    rewrite Z.eqb_refl. unfold bind, job_free. cbn [polls calls].
    rewrite Hfree. rewrite <- !app_assoc.
    replace (polls c + n + 1)%nat with (S (polls c + n)) by lia. reflexivity.
Qed.

(** X13.  [if not job] tests the truth value of the handle: not only
    [None] but also an empty string, zero and the empty containers make
    [wait_for_it] return the item at once, without a call to the
    plug-in, whatever the plug-in would answer. *)
Theorem wait_for_it_falsy_handle (msg : bytes) (job item : pyval)
        (fuel : nat) (c : client) :
  truthy job = false ->
  wait_for_it fuel msg job item c = (Return item, c) /\
  (job = PNone \/ job = PBool false \/ job = PInt 0 \/ job = PStr [] \/
   job = PList [] \/ job = PDict []).
Proof.
  intros Hjob. split.
  - unfold PluginTest.wait_for_it. rewrite Hjob. reflexivity.
  - destruct job as [| [|] | z | s | l | d]; cbn [truthy] in Hjob;
      try discriminate Hjob; auto.
    + apply negb_false_iff, Z.eqb_eq in Hjob. subst z. auto.
    + destruct s; [auto | discriminate Hjob].
    + destruct l; [auto 6 | discriminate Hjob].
    + destruct d; [auto 6 | discriminate Hjob].
Qed.

End PollingEdges.

(** * All other defaults of the plug-in interface *)

Section OtherDefaults.

Import IPlugin.

Variable NO_SUPPORT : Z.

(** X14.  Apart from [INetworkAttachedStorage.fs], every method the
    three interface classes define (30 of [IStorageAreaNetwork], 11 of
    [INetworkAttachedStorage], 4 of [INfs], and the 11 that [INfs]
    inherits) raises [LsmError] with the code [NO_SUPPORT], the message
    "Not supported" and no data, for all arguments. *)
Theorem defaults_raise_no_support (args : list pyval) :
  let unsupported :=
    Raise (LsmError (PInt NO_SUPPORT) (PStr (b "Not supported")) PNone) in
  (forall m, IStorageAreaNetwork NO_SUPPORT m args = unsupported) /\
  (forall m, m <> fs -> INetworkAttachedStorage NO_SUPPORT m args = unsupported) /\
  (forall m, INfs NO_SUPPORT (NfsOwn m) args = unsupported) /\
  (forall m, m <> fs -> INfs NO_SUPPORT (NfsInherited m) args = unsupported).
Proof.
  intros unsupported. split; [| split; [| split]].
  - intros m. destruct m; reflexivity.
  - intros m Hm. destruct m; (reflexivity || congruence).
  - intros m. destruct m; reflexivity.
  - intros m Hm. destruct m; (reflexivity || congruence).
Qed.

End OtherDefaults.

(** * Call statistics *)

Section StatsTotals.

Import Stats.

Variable T : Type.
Variable tzero : T.
Variable tadd : T -> T -> T.

Local Abbreviation entry := (entry T).
Local Abbreviation stats := (stats T).
Local Abbreviation update_stats := (update_stats tzero tadd).
Local Abbreviation update_each := (update_each tzero tadd).
Local Abbreviation totals := (totals tzero tadd).

Lemma bytes_eqb_same (x : bytes) : bytes_eqb x x = true.
Proof. unfold bytes_eqb. destruct (list_eq_dec ascii_dec x x); congruence. Qed.

Lemma lookup_store_same (name : bytes) (e : entry) (st : stats) :
  lookup name (store name e st) = Some e.
Proof.
  induction st as [| [k e'] st IH]; cbn [store lookup].
  - now rewrite bytes_eqb_same.
  - destruct (bytes_eqb name k) eqn:E; cbn [lookup]; rewrite E; auto.
Qed.

Lemma lookup_store_other (name other : bytes) (e : entry) (st : stats) :
  other <> name ->
  lookup other (store name e st) = lookup other st.
Proof.
  intros Hne. induction st as [| [k e'] st IH]; cbn [store lookup].
  - now rewrite (bytes_eqb_neq other name Hne).
  - destruct (bytes_eqb name k) eqn:E; cbn [lookup].
    + unfold bytes_eqb in E. destruct (list_eq_dec ascii_dec name k); [| discriminate].
      subst k. rewrite (bytes_eqb_neq other name Hne). reflexivity.
    + destruct (bytes_eqb other k); auto.
Qed.

(** One [update_stats] call: it returns, changes the entry of its name
    as [totals] says and leaves the other names alone. *)
Lemma update_stats_step (name : bytes) (d : T) (n : Z) (st : stats) :
  exists st',
    update_stats name d n st = (Return tt, st') /\
    lookup name st' = totals (lookup name st) [(name, d, n)] /\
    (forall other, other <> name -> lookup other st' = lookup other st).
Proof.
  unfold Stats.update_stats, bind, modify, ret.
  destruct (lookup name st) as [e |] eqn:Hl;
    rewrite ?lookup_store_same; cbv beta iota;
    destruct (0 <? n) eqn:Hn;
    rewrite ?lookup_store_same; cbv beta iota;
    (eexists; split; [reflexivity |]; split;
     [ rewrite lookup_store_same;
       unfold Stats.totals, durations, positive_items;
       cbn [map fold_left fold_right length fst snd count total_time number_items];
       rewrite Hn; do 2 f_equal; lia
     | intros other Hne; now rewrite !lookup_store_other ]).
Qed.

Lemma totals_cons (before : option entry) (c : bytes * T * Z)
      (cs : list (bytes * T * Z)) :
  totals before (c :: cs) = totals (totals before [c]) cs.
Proof.
  destruct cs as [| c' cs]; [reflexivity |].
  unfold Stats.totals. cbn [count total_time number_items].
  f_equal. f_equal.
  - cbn [length]. lia.
  - cbn [positive_items fold_right]. lia.
Qed.

(** X15.  [update_stats] keeps one entry per method name and never fails
    on a missing key.  After it has been called for a sequence of calls,
    every name has the entry it had before, changed only by the calls
    made under that name: [count] has grown by their number,
    [total_time] by their durations added in call order, and
    [number_items] by their positive result counts; a name without calls
    keeps its entry, or stays absent. *)
Theorem update_each_totals (calls : list (bytes * T * Z)) :
  forall st : stats,
  exists st',
    update_each calls st = (Return tt, st') /\
    forall name, lookup name st' = totals (lookup name st) (calls_of name calls).
Proof.
  induction calls as [| [[name d] n] calls IH]; intros st.
  - exists st. split; [reflexivity |]. intros name. reflexivity.
  - destruct (update_stats_step name d n st) as (st1 & Hstep & Hsame & Hother).
    destruct (IH st1) as (st' & Hrun & Hall).
    exists st'. split.
    + cbn [Stats.update_each]. unfold bind. rewrite Hstep. exact Hrun.
    + intros name'. rewrite Hall. unfold calls_of. cbn [filter fst].
      destruct (bytes_eqb name name') eqn:E.
      * unfold bytes_eqb in E.
        destruct (list_eq_dec ascii_dec name name'); [| discriminate].
        subst name'. rewrite totals_cons, Hsame. reflexivity.
      * rewrite Hother; [reflexivity |].
        intros ->. rewrite bytes_eqb_same in E. discriminate.
Qed.

End StatsTotals.

(** * Output of a command *)

Section Stripping.

Import Py.

Lemma lstrip_spec (s : bytes) :
  exists pre,
    s = pre ++ lstrip s /\ forallb isspace pre = true /\
    (forall c rest, lstrip s = c :: rest -> isspace c = false).
Proof.
  induction s as [| c s (pre & Heq & Hpre & Hhead)].
  - exists []. repeat split. intros c rest H. discriminate H.
  - cbn [lstrip]. destruct (isspace c) eqn:Hc.
    + exists (c :: pre). cbn [app forallb]. rewrite Hc, Hpre, <- Heq. auto.
    + exists []. repeat split. intros c' rest H. injection H as <- _. exact Hc.
Qed.

Lemma rstrip_spec (s : bytes) :
  exists post,
    s = rstrip s ++ post /\ forallb isspace post = true /\
    (forall c front, rstrip s = front ++ [c] -> isspace c = false).
Proof.
  destruct (lstrip_spec (rev s)) as (pre & Heq & Hpre & Hhead).
  exists (rev pre). unfold rstrip. split; [| split].
  - rewrite <- rev_app_distr, <- Heq, rev_involutive. reflexivity.
  - rewrite forallb_forall in *. intros x Hx. apply Hpre. now apply in_rev.
  - intros c front H. apply (f_equal (@rev ascii)) in H.
    rewrite rev_involutive, rev_app_distr in H. cbn in H.
    exact (Hhead c (rev front) H).
Qed.

(** [strip] cuts white space, and only white space, from both ends. *)
Lemma strip_spec (s : bytes) :
  exists pre post,
    s = pre ++ strip s ++ post /\
    forallb isspace pre = true /\ forallb isspace post = true /\
    (forall c rest, strip s = c :: rest -> isspace c = false) /\
    (forall c front, strip s = front ++ [c] -> isspace c = false).
Proof.
  destruct (lstrip_spec s) as (pre & Heq1 & Hpre & Hhead).
  destruct (rstrip_spec (lstrip s)) as (post & Heq2 & Hpost & Hlast).
  exists pre, post. unfold strip. split; [| split; [| split; [| split]]]; auto.
  - rewrite <- Heq2. exact Heq1.
  - intros c rest H. rewrite H in Heq2. exact (Hhead c _ Heq2).
Qed.

Variable Popen : list bytes -> outcome Hpsa.process.

(** X16.  What [cmd_exec] returns is the standard output of the command
    without the white space around it: the output is the returned text
    between two runs of white space, and the returned text neither
    starts nor ends with a white-space character. *)
Theorem cmd_exec_output_stripped (cmds : list bytes) (p : Hpsa.process)
        (out : bytes) :
  Popen cmds = Return p ->
  Hpsa.cmd_exec Popen cmds = Return out ->
  exists pre post,
    join [] (Hpsa.stdout p) = pre ++ out ++ post /\
    forallb isspace pre = true /\ forallb isspace post = true /\
    (forall c rest, out = c :: rest -> isspace c = false) /\
    (forall c front, out = front ++ [c] -> isspace c = false).
Proof.
  intros Hrun Hout. unfold Hpsa.cmd_exec in Hout. rewrite Hrun in Hout.
  destruct (negb (Hpsa.returncode p =? 0)); [discriminate Hout |].
  injection Hout as <-. apply strip_spec.
Qed.

End Stripping.

(** * The echo server and a peer that goes away *)

Section EchoClosing.

Import Transport EchoServer.

Variable dumps : pyval -> bytes.
Variable loads : bytes -> option pyval.

Local Abbreviation serve_loop := (serve_loop dumps loads).
Local Abbreviation server := (server dumps loads).
Local Abbreviation readable := (readable dumps loads).
Local Abbreviation answered := (answered dumps).
Local Abbreviation request_frame := (request_frame dumps).
Local Abbreviation reply_frame := (reply_frame dumps).

Lemma read_req_at_end (segs out : list bytes) :
  concat segs = [] ->
  exists segs',
    read_req loads (Socket segs out) = (Raise SocketEOF, Socket segs' out).
Proof.
  intros Hend.
  destruct (readAll_eof (Z.of_nat HDR_LEN) segs out) as (segs' & Hrd).
  { rewrite Hend. unfold len, HDR_LEN. simpl. lia. }
  exists segs'. apply recvMsg_raises. unfold recvMsg, bind. rewrite Hrd.
  reflexivity.
Qed.

(** The loop over requests that are not followed by ['done']: every one
    is answered, then the read of the next one finds the end of the
    stream. *)
Lemma serve_loop_cut_off (reqs : list (bytes * pyval)) :
  forall q segs out fuel,
  Forall answered (q :: reqs) ->
  Forall readable reqs ->
  concat segs = concat (map request_frame reqs) ->
  (length reqs < fuel)%nat ->
  exists segs',
    serve_loop fuel (request (PStr (fst q)) (snd q)) (Socket segs out) =
      (Raise SocketEOF, Socket segs' (out ++ map reply_frame (q :: reqs))).
Proof.
  induction reqs as [| q' reqs IH]; intros q segs out fuel Hans Hread Hsegs Hfuel;
    (destruct fuel as [| fuel]; [simpl in Hfuel; lia |]);
    inversion Hans as [| ? ? Hq Hans']; subst;
    cbn [EchoServer.serve_loop];
    (erewrite bind_return by reflexivity);
    cbn [str_eq]; rewrite (bytes_eqb_neq _ _ (proj1 Hq)); cbn [negb];
    (erewrite bind_return by reflexivity); cbn [str_eq];
    (erewrite bind_return by (apply (answer_written dumps q (Socket segs out) Hq)));
    cbn [inbound sent].
  - destruct (read_req_at_end segs (out ++ [reply_frame q]) Hsegs) as (segs' & Hrd).
    exists segs'. unfold bind. rewrite Hrd. reflexivity.
  - inversion Hread as [| ? ? Hq' Hread']; subst.
    cbn [map concat] in Hsegs.
    destruct (read_req_request dumps loads q' _ segs (out ++ [reply_frame q]) Hq' Hsegs)
      as (segs1 & Hrd & Hcat1).
    erewrite bind_return by (exact Hrd).
    destruct (IH q' segs1 (out ++ [reply_frame q]) fuel Hans' Hread' Hcat1)
      as (segs' & Hrun); [simpl in Hfuel; lia |].
    exists segs'. rewrite Hrun. cbn [map]. rewrite <- app_assoc. reflexivity.
Qed.

(** X17.  [server] closes its socket in a [finally] that the first read
    is outside of.  When the first [read_req] raises (the peer has sent
    no whole request), [server] raises the same exception and has not
    closed the socket.  When the peer goes away after one or more
    requests without sending ['done'], [server] has answered them all,
    raises [SocketEOF], and has closed the socket. *)
Theorem server_closes_after_first_read (fuel : nat) (segs out : list bytes) :
  (forall e s1 was_closed,
     read_req loads (Socket segs out) = (Raise e, s1) ->
     server fuel (Endpoint (Socket segs out) was_closed) =
       (Raise e, Endpoint s1 was_closed)) /\
  (forall q reqs,
     Forall answered (q :: reqs) ->
     Forall readable (q :: reqs) ->
     concat segs = concat (map request_frame (q :: reqs)) ->
     (length reqs < fuel)%nat ->
     exists segs',
       server fuel (Endpoint (Socket segs out) false) =
         (Raise SocketEOF,
          Endpoint (Socket segs' (out ++ map reply_frame (q :: reqs))) true)).
Proof.
  split.
  - intros e s1 was_closed Hrd. unfold EchoServer.server, bind, on_conn.
    cbn [conn closed]. rewrite Hrd. reflexivity.
  - intros q reqs Hans Hread Hsegs Hfuel.
    inversion Hread as [| ? ? Hq Hread']; subst.
    cbn [map concat] in Hsegs.
    destruct (read_req_request dumps loads q _ segs out Hq Hsegs)
      as (segs1 & Hrd & Hcat1).
    destruct (serve_loop_cut_off reqs q segs1 out fuel Hans Hread' Hcat1 Hfuel)
      as (segs' & Hloop).
    exists segs'. unfold EchoServer.server.
    erewrite bind_return
      by (unfold on_conn; cbn [conn closed]; rewrite Hrd; reflexivity).
    unfold try_finally, on_conn, bind. cbn [conn closed].
    rewrite Hloop. reflexivity.
Qed.

End EchoClosing.

(** * The call proxy *)

Section ProxyFacts.

Import Proxy.

Variable T : Type.
Variable tzero : T.
Variable tadd : T -> T -> T.
Variable tsub : T -> T -> T.
Variable clock : nat -> T.
Variable INPROGRESS COMPLETE : Z.
Variable status_reply : pyval -> nat -> outcome (Z * pyval * pyval).
Variable free_reply : pyval -> outcome pyval.
Variable other_reply : bytes -> list pyval -> outcome pyval.
Variable format_exc : exn -> bytes.
Variable str_exn : exn -> bytes.
Variable str_container : pyval -> bytes.

Local Abbreviation wrapped_call :=
  (Proxy.wrapped_call status_reply free_reply other_reply).
Local Abbreviation recorded_call :=
  (Proxy.recorded_call T status_reply free_reply other_reply format_exc str_exn).
Local Abbreviation present_with :=
  (Proxy.present_with T tzero tadd tsub clock status_reply free_reply
     other_reply format_exc str_exn).
Local Abbreviation wait_for_it :=
  (Proxy.wait_for_it T INPROGRESS COMPLETE str_container).
Local Abbreviation call_and_wait :=
  (Proxy.call_and_wait T status_reply free_reply other_reply format_exc str_exn).
Local Abbreviation fix_up_and_count := (Proxy.fix_up_and_count T tzero tadd).
Local Abbreviation timed := (Proxy.timed T tsub clock).
Local Abbreviation client_wait_loop :=
  (PluginTest.wait_loop INPROGRESS COMPLETE status_reply free_reply).
Local Abbreviation client_wait_for_it :=
  (PluginTest.wait_for_it INPROGRESS COMPLETE status_reply free_reply).
Local Abbreviation wait_loop :=
  (Proxy.wait_loop T INPROGRESS COMPLETE str_container).
Local Abbreviation present :=
  (Proxy.present T tzero tadd tsub clock INPROGRESS COMPLETE status_reply
     free_reply other_reply format_exc str_exn str_container).

Lemma results_of_set_same (name : bytes) (l : list result) rs :
  results_of name (set_results name l rs) = Some l.
Proof.
  induction rs as [| [k l'] rs IH]; cbn [set_results results_of].
  - now rewrite bytes_eqb_same.
  - destruct (bytes_eqb name k) eqn:E; cbn [results_of]; rewrite E; auto.
Qed.



Lemma results_of_ensured (name : bytes) rs :
  results_of name (ensured name rs) = Some (records name rs).
Proof.
  unfold ensured, records. destruct (results_of name rs) eqn:E; [exact E |].
  apply results_of_set_same.
Qed.


Lemma ensure_results_eq (name : bytes) (p : proxy T) :
  ensure_results T name p =
    (Return tt, Proxy_ (wrapped p) (ensured name (results p)) (stats p) (ticks p)).
Proof.
  unfold ensure_results, ensured. destruct p as [c rs st k].
  cbn [wrapped results stats ticks]. destruct (results_of name rs); reflexivity.
Qed.

(** The recorded call, once the name has its list: the outcome of the
    wrapped call with one record appended. *)
Lemma recorded_call_eq (name : bytes) (args : list pyval) c rs (st : Stats.stats T) k :
  recorded_call name args (Proxy_ c (ensured name rs) st k) =
    match wrapped_call name args c with
    | (Return v, c1) =>
        (Return v,
         Proxy_ c1
           (set_results name (records name rs ++ [Result true None None])
              (ensured name rs)) st k)
    | (Raise e, c1) =>
        (Raise e,
         Proxy_ c1
           (set_results name
              (records name rs ++
               [Result false (Some (format_exc e)) (Some (str_exn e))])
              (ensured name rs)) st k)
    | (Diverge, c1) => (Diverge, Proxy_ c1 (ensured name rs) st k)
    end.
Proof.
  unfold Proxy.recorded_call, invoke, on_wrapped. cbn [wrapped results stats ticks].
  destruct (Proxy.wrapped_call status_reply free_reply other_reply name args c)
    as [[v | e |] c1]; try reflexivity;
    unfold bind, append_result, ret, raise; cbn [wrapped results stats ticks];
    rewrite results_of_ensured; reflexivity.
Qed.

Lemma timed_eq {A} (body : M (proxy T) A) c rs (st : Stats.stats T) k :
  timed body (Proxy_ c rs st k) =
    match body (Proxy_ c rs st (S k)) with
    | (Return a, p') =>
        (Return (a, tsub (clock (ticks p')) (clock k)),
         Proxy_ (wrapped p') (results p') (stats p') (S (ticks p')))
    | (Raise e, p') =>
        (Raise e, Proxy_ (wrapped p') (results p') (stats p') (S (ticks p')))
    | (Diverge, p') => (Diverge, p')
    end.
Proof.
  unfold Proxy.timed, bind, time. cbn [wrapped results stats ticks].
  destruct (body (Proxy_ c rs st (S k))) as [[a | e |] p']; reflexivity.
Qed.

(** Updating the statistics never fails. *)
Lemma on_stats_update (name : bytes) (d : T) (n : Z) (p : proxy T) :
  exists st',
    on_stats T (Stats.update_stats tzero tadd name d n) p =
      (Return tt, Proxy_ (wrapped p) (results p) st' (ticks p)) /\
    Stats.lookup name st' =
      Stats.totals tzero tadd (Stats.lookup name (stats p)) [(name, d, n)] /\
    (forall other, other <> name ->
       Stats.lookup other st' = Stats.lookup other (stats p)).
Proof.
  destruct (update_stats_step T tzero tadd name d n (stats p))
    as (st' & Hrun & Hsame & Hother).
  exists st'. unfold on_stats. rewrite Hrun. auto.
Qed.

Lemma fix_up_plain (name : bytes) (v : pyval) (amount : T) (p : proxy T) :
  shape_of name async_calls = None ->
  exists st',
    fix_up_and_count name v amount p =
      (Return v, Proxy_ (wrapped p) (results p) st' (ticks p)) /\
    Stats.lookup name st' =
      Stats.totals tzero tadd (Stats.lookup name (stats p))
        [(name, amount, num_results v)] /\
    (forall other, other <> name ->
       Stats.lookup other st' = Stats.lookup other (stats p)).
Proof.
  intros Hshape. unfold Proxy.fix_up_and_count. rewrite Hshape.
  destruct (on_stats_update name amount (num_results v) p)
    as (st' & Hrun & Hsame & Hother).
  exists st'. split; [| split; assumption].
  unfold bind at 1, ret at 1. cbn [negb andb].
  unfold num_results in Hrun. unfold bind. rewrite Hrun. reflexivity.
Qed.


Lemma fix_up_bare (name : bytes) (v : pyval) (amount : T) (p : proxy T) :
  shape_of name async_calls = Some BareType ->
  fix_up_and_count name v amount p = (Raise TypeError, p).
Proof.
  intros Hshape. unfold Proxy.fix_up_and_count. rewrite Hshape. reflexivity.
Qed.

(** [present] for a method that cannot be asynchronous: the outcome and
    the client are those of the wrapped call. *)
Lemma present_plain_call (waiter : bytes -> pyval -> pyval -> M (proxy T) pyval)
      (name : bytes) (args : list pyval) (p : proxy T) :
  shape_of name async_calls = None ->
  exists p',
    present_with waiter name args p =
      (fst (wrapped_call name args (wrapped p)), p') /\
    wrapped p' = snd (wrapped_call name args (wrapped p)).
Proof.
  intros Hshape. destruct p as [c rs st k].
  unfold Proxy.present_with. unfold bind at 1. rewrite ensure_results_eq.
  cbn [wrapped results stats ticks]. unfold bind at 1. rewrite timed_eq.
  unfold Proxy.call_and_wait. rewrite Hshape. unfold bind at 1.
  rewrite recorded_call_eq.
  destruct (Proxy.wrapped_call status_reply free_reply other_reply name args c)
    as [[v | e |] c1]; cbn [andb ret fst snd wrapped results stats ticks].
  - destruct (fix_up_plain name v (tsub (clock (S k)) (clock k))
                (Proxy_ c1
                   (set_results name (records name rs ++ [Result true None None])
                      (ensured name rs)) st (S (S k))) Hshape)
      as (st' & Hfix & _).
    rewrite Hfix. eexists. split; reflexivity.
  - eexists. split; reflexivity.
  - eexists. split; reflexivity.
Qed.


Lemma wrapped_call_job_status (job : pyval) (c : PluginTest.client) :
  wrapped_call (b "job_status") [job] c =
    match status_reply job (PluginTest.polls c) with
    | Return (s, percent, i) => (Return (PList [PInt s; percent; i]), polled job c)
    | Raise e => (Raise e, polled job c)
    | Diverge => (Diverge, polled job c)
    end.
Proof.
  change (wrapped_call (b "job_status") [job] c)
    with ((r <- PluginTest.job_status status_reply job ;;
           let '(s, percent, i) := r in ret (PList [PInt s; percent; i])) c).
  unfold bind, PluginTest.job_status, polled.
  destruct (status_reply job (PluginTest.polls c)) as [[[s percent] i] | e |];
    reflexivity.
Qed.

Lemma wrapped_call_job_free (job : pyval) (c : PluginTest.client) :
  wrapped_call (b "job_free") [job] c =
    (free_reply job, logged (PluginTest.JobFree job) c).
Proof. reflexivity. Qed.

(** One iteration of the loop on the client. *)
Lemma client_wait_loop_step (fuel : nat) (message : bytes) (job : pyval)
      (c : PluginTest.client) :
  client_wait_loop (S fuel) message job c =
    match status_reply job (PluginTest.polls c) with
    | Return (s, percent, i) =>
        if s =? INPROGRESS then
          client_wait_loop fuel message job
            (logged (PluginTest.Sleep 250) (polled job c))
        else if s =? COMPLETE then
          match free_reply job with
          | Return _ => (Return i, logged (PluginTest.JobFree job) (polled job c))
          | Raise e => (Raise e, logged (PluginTest.JobFree job) (polled job c))
          | Diverge => (Diverge, logged (PluginTest.JobFree job) (polled job c))
          end
        else
          (Raise (Exception (message ++ b " job error code= " ++ Py.repr s)),
           polled job c)
    | Raise e => (Raise e, polled job c)
    | Diverge => (Diverge, polled job c)
    end.
Proof.
  cbn [PluginTest.wait_loop]. unfold bind at 1, PluginTest.job_status.
  fold (polled job c).
  destruct (status_reply job (PluginTest.polls c)) as [[[s percent] i] | e |];
    try reflexivity.
  destruct (s =? INPROGRESS); [reflexivity |].
  destruct (s =? COMPLETE); [| reflexivity].
  unfold bind, PluginTest.job_free. cbn [PluginTest.polls PluginTest.calls].
  unfold logged. destruct (free_reply job); reflexivity.
Qed.

Lemma bind_raise {St A B} (m : M St A) (k : A -> M St B) (s s' : St) (e : exn) :
  m s = (Raise e, s') -> bind m k s = (Raise e, s').
Proof. intros H. unfold bind. rewrite H. reflexivity. Qed.

Lemma bind_diverge {St A B} (m : M St A) (k : A -> M St B) (s s' : St) :
  m s = (Diverge, s') -> bind m k s = (Diverge, s').
Proof. intros H. unfold bind. rewrite H. reflexivity. Qed.

(** The loop run through the proxy does to the wrapped client what the
    loop run on the client does, with the same outcome. *)
Lemma proxied_wait_loop (waiter : bytes -> pyval -> pyval -> M (proxy T) pyval)
      (message : bytes) (job : pyval) (fuel : nat) :
  forall p : proxy T,
  exists p',
    wait_loop (present_with waiter) fuel message job p =
      (fst (client_wait_loop fuel message job (wrapped p)), p') /\
    wrapped p' = snd (client_wait_loop fuel message job (wrapped p)).
Proof.
  induction fuel as [| fuel IH]; intros p.
  - exists p. split; reflexivity.
  - rewrite client_wait_loop_step. cbn [Proxy.wait_loop].
    destruct (present_plain_call waiter (b "job_status") [job] p eq_refl)
      as (p1 & Hcall & Hw1).
    rewrite wrapped_call_job_status in Hcall, Hw1.
    destruct (status_reply job (PluginTest.polls (wrapped p)))
      as [[[s percent] i] | e |]; cbn [fst snd] in Hcall, Hw1.
    + erewrite bind_return by (exact Hcall).
      erewrite bind_return by reflexivity. cbn [eq_const].
      destruct (s =? INPROGRESS).
      * erewrite bind_return by reflexivity. rewrite Hw1.
        match goal with
        | |- context [wait_loop _ fuel message job ?q] =>
            destruct (IH q) as (p' & Hrun & Hw')
        end.
        cbn [wrapped] in Hrun, Hw'.
        exists p'. split; [exact Hrun | exact Hw'].
      * destruct (s =? COMPLETE).
        -- destruct (present_plain_call waiter (b "job_free") [job] p1 eq_refl)
             as (p2 & Hfree & Hw2).
           rewrite wrapped_call_job_free, Hw1 in Hfree, Hw2.
           cbn [fst snd] in Hfree, Hw2.
           destruct (free_reply job) as [x | e |].
           ++ erewrite bind_return by (exact Hfree).
              exists p2. split; [reflexivity | exact Hw2].
           ++ erewrite bind_raise by (exact Hfree).
              exists p2. split; [reflexivity | exact Hw2].
           ++ erewrite bind_diverge by (exact Hfree).
              exists p2. split; [reflexivity | exact Hw2].
        -- exists p1. split; [reflexivity | exact Hw1].
    + erewrite bind_raise by (exact Hcall).
      exists p1. split; [reflexivity | exact Hw1].
    + erewrite bind_diverge by (exact Hcall).
      exists p1. split; [reflexivity | exact Hw1].
Qed.


Lemma proxied_wait_loop_or_item
      (waiter : bytes -> pyval -> pyval -> M (proxy T) pyval)
      (fuel : nat) (message : bytes) (job item : pyval) (p : proxy T) :
  exists p',
    wait_for_it (present_with waiter) fuel message job item p =
      (fst (client_wait_for_it fuel message job item (wrapped p)), p') /\
    wrapped p' = snd (client_wait_for_it fuel message job item (wrapped p)).
Proof.
  unfold Proxy.wait_for_it, PluginTest.wait_for_it.
  destruct (negb (truthy job)).
  - exists p. split; reflexivity.
  - apply proxied_wait_loop.
Qed.


(** X19.  The entry of ['volume_child_dependency_rm'] in [async_calls]
    is the bare type [(unicode)], not a tuple, so [len] of it raises
    [TypeError]: [present] never returns for this method.  When the
    wrapped method returns [None], the call is on record as a success
    and [present] raises [TypeError] with the statistics unchanged. *)
Theorem present_bare_type (fuel : nat) (args : list pyval) (p : proxy T) :
  let name := b "volume_child_dependency_rm" in
  (forall v p', present fuel name args p <> (Return v, p')) /\
  (forall c1,
     wrapped_call name args (wrapped p) = (Return PNone, c1) ->
     exists p',
       present fuel name args p = (Raise TypeError, p') /\
       wrapped p' = c1 /\
       results_of name (results p') =
         Some (records name (results p) ++ [Result true None None]) /\
       stats p' = stats p).
Proof.
  intros name. destruct p as [c rs st k]. cbn [wrapped results stats ticks].
  split.
  - intros v p'. unfold Proxy.present, Proxy.present_with. unfold bind at 1.
    rewrite ensure_results_eq. cbn [wrapped results stats ticks].
    unfold bind at 1. rewrite timed_eq.
    match goal with
    | |- context [Proxy.call_and_wait ?a ?b0 ?c0 ?d ?e ?f ?g ?h ?i ?j] =>
        destruct (Proxy.call_and_wait a b0 c0 d e f g h i j) as [[r | e0 |] p1]
    end; discriminate.
  - intros c1 Hcall. unfold Proxy.present, Proxy.present_with. unfold bind at 1.
    rewrite ensure_results_eq. cbn [wrapped results stats ticks].
    unfold bind at 1. rewrite timed_eq.
    unfold Proxy.call_and_wait. unfold bind at 1.
    rewrite recorded_call_eq. fold name. rewrite Hcall.
    cbn [is_none negb andb ret fst snd wrapped results stats ticks].
    rewrite Bool.andb_false_r. cbn [ret fst snd wrapped results stats ticks].
    rewrite fix_up_bare by reflexivity.
    eexists. split; [reflexivity |]. cbn [wrapped results stats ticks].
    split; [reflexivity |]. split; [apply results_of_set_same | reflexivity].
Qed.

(** X20.  The polling loop sees no difference when its calls go through
    the proxy: run with [self.job_status] and [self.job_free] as proxied
    calls, [wait_for_it] has the outcome of the loop that calls the
    client directly, and leaves the wrapped client in the same state
    (same polls, same calls in the same order). *)
Theorem proxied_wait_for_it_agrees
        (waiter : bytes -> pyval -> pyval -> M (proxy T) pyval)
        (fuel : nat) (message : bytes) (job item : pyval) (p : proxy T) :
  exists p',
    wait_for_it (present_with waiter) fuel message job item p =
      (fst (client_wait_for_it fuel message job item (wrapped p)), p') /\
    wrapped p' = snd (client_wait_for_it fuel message job item (wrapped p)).
Proof.
  apply proxied_wait_loop_or_item.
Qed.


End ProxyFacts.

(** * Further instances on concrete inputs *)

Section MoreInstances.

Import Transport Session EchoServer Examples.

(** Four bytes asked of a stream that arrives as two and four. *)
Lemma readAll_returns_exactly_witness :
  readAll 4 (Socket [b "ab"; b "cdef"] []) =
    (Return (b "abcd"), Socket [b "ef"] []) /\
  len (b "abcd") = 4 /\
  b "abcd" ++ concat (inbound (Socket [b "ef"] [])) =
    concat (inbound (Socket [b "ab"; b "cdef"] [])).
Proof.
  assert (H : readAll 4 (Socket [b "ab"; b "cdef"] []) =
              (Return (b "abcd"), Socket [b "ef"] [])) by reflexivity.
  split; [exact H |].
  destruct (readAll_returns_exactly _ _ _ _ H) as (_ & Hlen & Hcat & _).
  split; [exact Hlen | exact Hcat].
Defined.

Lemma readAll_by_pending_witness :
  1 <= 4 /\
  (exists segs',
     readAll 4 (Socket [b "ab"; b "cdef"] []) =
       (Return (firstn (Z.to_nat 4) (concat [b "ab"; b "cdef"])), Socket segs' []) /\
     concat segs' = skipn (Z.to_nat 4) (concat [b "ab"; b "cdef"])) /\
  (exists segs', readAll 4 (Socket [b "ab"] []) = (Raise SocketEOF, Socket segs' [])).
Proof.
  assert (H : 1 <= 4) by lia.
  split; [exact H |]. split.
  - apply (proj1 (readAll_by_pending 4 [b "ab"; b "cdef"] [] H)). by_computation.
  - apply (proj2 (readAll_by_pending 4 [b "ab"] [] H)). by_computation.
Defined.

Lemma recvMsg_returns_frame_witness :
  recvMsg (Socket [b "0000000002{}"; b "00"] []) =
    (Return (b "{}"), Socket [b "00"] []) /\
  exists hdr,
    length hdr = HDR_LEN /\ Py.int hdr = Some (len (b "{}")) /\ 1 <= len (b "{}").
Proof.
  assert (H : recvMsg (Socket [b "0000000002{}"; b "00"] []) =
              (Return (b "{}"), Socket [b "00"] [])) by reflexivity.
  split; [exact H |].
  destruct (recvMsg_returns_frame _ _ _ H) as (hdr & H1 & H2 & H3 & _).
  exists hdr. auto.
Defined.


Lemma frames_arrive_in_order_witness :
  Forall framable [b "{}"; b "[1, 2]"] /\
  send_each [b "{}"; b "[1, 2]"] (Socket [] []) =
    (Return tt, Socket [] [b "0000000002{}"; b "0000000006[1, 2]"]) /\
  exists segs',
    recv_each 2 (Socket [b "0000000"; b "002{}0000000006[1"; b ", 2]"] []) =
      (Return [b "{}"; b "[1, 2]"], Socket segs' []) /\
    fst (recvMsg (Socket segs' [])) = Raise SocketEOF.
Proof.
  assert (H : Forall framable [b "{}"; b "[1, 2]"]).
  { repeat constructor; by_computation. }
  split; [exact H |].
  destruct (frames_arrive_in_order [b "{}"; b "[1, 2]"] [] H) as [Hsend Hrecv].
  split; [exact Hsend |].
  apply (Hrecv [b "0000000"; b "002{}0000000006[1"; b ", 2]"] []). reflexivity.
Defined.

Lemma response_round_trip_witness :
  Json.loads (Json.dumps reply_7) = Some reply_7 /\
  framable (Json.dumps reply_7) /\
  forall segs out rest,
    concat segs = frame_of (Json.dumps reply_7) ++ rest ->
    exists segs',
      read_resp Json.loads (Socket segs out) =
        (Return (PInt 1, PInt 7), Socket segs' out) /\
      concat segs' = rest.
Proof.
  assert (H1 : Json.loads (Json.dumps reply_7) = Some reply_7)
    by (vm_compute; reflexivity).
  assert (H2 : framable (Json.dumps reply_7)) by by_computation.
  split; [exact H1 |]. split; [exact H2 |].
  exact (proj2 (response_round_trip Json.dumps Json.loads (PInt 1) (PInt 7)
                  (Socket [] []) H1 H2)).
Defined.

(** A reply that is a list, and one that is an empty dictionary. *)
Lemma read_resp_malformed_witness :
  read_resp Json.loads (Socket [b "0000000003[1]"] []) =
    (Raise TypeError, Socket [] []) /\
  read_resp Json.loads (Socket [b "0000000002{}"] []) =
    (Raise (KeyError (b "error")), Socket [] []).
Proof.
  split.
  - apply (proj1 (proj2 (read_resp_malformed Json.loads [b "0000000003[1]"] []
                           (b "[1]") (Socket [] []) eq_refl))
             (PList [PInt 1]) eq_refl).
    intros d H. discriminate H.
  - apply (proj2 (proj2 (proj2 (read_resp_malformed Json.loads [b "0000000002{}"] []
                                  (b "{}") (Socket [] []) eq_refl)))
             [] eq_refl eq_refl eq_refl).
Defined.

Lemma rpc_raises_fault_witness :
  1 <= len (Json.dumps (request (PStr (b "volumes")) (PList []))) /\
  Json.loads (Json.dumps test_fault) = Some test_fault /\
  framable (Json.dumps test_fault) /\
  exists segs',
    rpc Json.dumps Json.loads (PStr (b "volumes")) (PList [])
      (Socket [frame_of (Json.dumps test_fault)] []) =
      (Raise (LsmError (PInt 100) (PStr (b "Test error message")) PNone),
       Socket segs'
         [frame_of (Json.dumps (request (PStr (b "volumes")) (PList [])))]).
Proof.
  assert (H1 : 1 <= len (Json.dumps (request (PStr (b "volumes")) (PList []))))
    by by_computation.
  assert (H2 : Json.loads (Json.dumps test_fault) = Some test_fault)
    by (vm_compute; reflexivity).
  assert (H3 : framable (Json.dumps test_fault)) by by_computation.
  split; [exact H1 |]. split; [exact H2 |]. split; [exact H3 |].
  destruct (rpc_raises_fault Json.dumps Json.loads (PStr (b "volumes")) (PList [])
              (PInt 100) (PInt 100) (PStr (b "Test error message")) PNone
              [frame_of (Json.dumps test_fault)] [] [] H1 H2 H3
              (eq_sym (app_nil_r _)))
    as (segs' & _ & Hrpc).
  exists segs'. exact Hrpc.
Defined.

Lemma echo_script_answered : Forall (answered Json.dumps) echo_script.
Proof.
  repeat constructor; try discriminate;
    eexists; (split; [reflexivity | by_computation]).
Qed.

Lemma echo_script_readable :
  Forall (readable Json.dumps Json.loads) (echo_script ++ [(b "done", PNone)]).
Proof. repeat constructor; by_computation. Qed.

(** The echo server run on the script of the transport test. *)
Lemma server_answers_script_witness :
  Forall (answered Json.dumps) echo_script /\
  Forall (readable Json.dumps Json.loads) (echo_script ++ [(b "done", PNone)]) /\
  exists segs',
    server Json.dumps Json.loads 3
      (Endpoint
         (Socket
            [concat (map (request_frame Json.dumps)
                       (echo_script ++ [(b "done", PNone)]))] [])
         false) =
      (Return tt,
       Endpoint
         (Socket segs'
            ([] ++ map (reply_frame Json.dumps) echo_script ++
             [frame_of (Json.dumps (response PNone (PInt 100)))]))
         true) /\
    concat segs' = [].
Proof.
  split; [exact echo_script_answered |]. split; [exact echo_script_readable |].
  apply (server_answers_script Json.dumps Json.loads echo_script PNone [] _ [] 3
           echo_script_answered echo_script_readable).
  - by_computation.
  - cbn [concat]. rewrite !app_nil_r. reflexivity.
  - cbn. lia.
Defined.

(** The peer sends the script and goes away without ['done']. *)
Lemma server_closes_witness :
  server Json.dumps Json.loads 3 (Endpoint (Socket [b "0000"] []) false) =
    (Raise SocketEOF, Endpoint (Socket [] []) false) /\
  exists segs',
    server Json.dumps Json.loads 3
      (Endpoint
         (Socket [concat (map (request_frame Json.dumps) echo_script)] [])
         false) =
      (Raise SocketEOF,
       Endpoint (Socket segs' ([] ++ map (reply_frame Json.dumps) echo_script))
                true).
Proof.
  split.
  - apply (proj1 (server_closes_after_first_read Json.dumps Json.loads 3
                    [b "0000"] [])).
    reflexivity.
  - apply (proj2 (server_closes_after_first_read Json.dumps Json.loads 3
                    [concat (map (request_frame Json.dumps) echo_script)] [])
             (b "test", PStr (b " ")) (tl echo_script)
             echo_script_answered).
    + repeat constructor; by_computation.
    + cbn [concat]. rewrite app_nil_r. reflexivity.
    + cbn. lia.
Defined.

End MoreInstances.

Section PollingInstances.

Import PluginTest Examples.

(** Three iterations on a job that stays in progress. *)
Lemma wait_for_it_keeps_polling_witness :
  truthy (PStr (b "JOB_1")) = true /\
  in_progress_for 1 stalled (PStr (b "JOB_1")) 0 3 /\
  wait_for_it 1 2 stalled free_ok 3 (b "volume_create") (PStr (b "JOB_1")) PNone
    (Client 0 []) =
    (Diverge, Client 3 (polling_calls (PStr (b "JOB_1")) 3)).
Proof.
  assert (H : in_progress_for 1 stalled (PStr (b "JOB_1")) 0 3).
  { intros k _. eexists. eexists. reflexivity. }
  split; [reflexivity |]. split; [exact H |].
  exact (proj1 (wait_for_it_keeps_polling 1 2 stalled free_ok (b "volume_create")
                  (PStr (b "JOB_1")) PNone 3 (Client 0 []) eq_refl H)).
Defined.

(** A [job_status] that fails at once, and a [job_free] that fails for a
    job that is complete at the third poll. *)
Lemma wait_for_it_call_fails_witness :
  wait_for_it 1 2 broken free_ok 1 (b "volume_create") (PStr (b "JOB_1")) PNone
    (Client 0 []) =
    (Raise (LsmError (PInt 1) (PStr (b "job not found")) PNone),
     Client 1 [JobStatus (PStr (b "JOB_1"))]) /\
  wait_for_it 1 2 completing free_fails 3 (b "volume_create")
    (PStr (b "JOB_1")) PNone (Client 0 []) =
    (Raise (LsmError (PInt 1) (PStr (b "job not found")) PNone),
     Client 3
       (polling_calls (PStr (b "JOB_1")) 2 ++
        [JobStatus (PStr (b "JOB_1")); JobFree (PStr (b "JOB_1"))])).
Proof.
  split.
  - apply (proj1 (wait_for_it_call_fails 1 2 broken free_ok (b "volume_create")
                    (PStr (b "JOB_1")) PNone 0
                    (LsmError (PInt 1) (PStr (b "job not found")) PNone)
                    (Client 0 []) 1 eq_refl
                    ltac:(intros k Hk; lia) ltac:(lia))).
    reflexivity.
  - assert (H : in_progress_for 1 completing (PStr (b "JOB_1")) 0 2).
    { intros k Hk. destruct k as [| [| k]]; [| | lia];
        eexists; eexists; reflexivity. }
    apply (proj2 (wait_for_it_call_fails 1 2 completing free_fails
                    (b "volume_create") (PStr (b "JOB_1")) PNone 2
                    (LsmError (PInt 1) (PStr (b "job not found")) PNone)
                    (Client 0 []) 3 eq_refl H ltac:(lia))
             (PInt 100) (PStr (b "VOL_1")));
      [discriminate | reflexivity | reflexivity].
Defined.

(** An empty string as job handle. *)
Lemma wait_for_it_falsy_handle_witness :
  truthy (PStr []) = false /\
  wait_for_it 1 2 completing free_ok 3 (b "volume_delete") (PStr [])
    (PStr (b "item")) (Client 0 []) =
    (Return (PStr (b "item")), Client 0 []).
Proof.
  split; [reflexivity |].
  exact (proj1 (wait_for_it_falsy_handle 1 2 completing free_ok
                  (b "volume_delete") (PStr []) (PStr (b "item")) 3
                  (Client 0 []) eq_refl)).
Defined.

(** The output line of the command, without its newline. *)
Lemma cmd_exec_output_stripped_witness :
  Hpsa.cmd_exec ran_ok [b "hpssacli"] = Return (b "Smart Array P410") /\
  exists pre post,
    Py.join [] [b "Smart Array P410" ++ [nl]] =
      pre ++ b "Smart Array P410" ++ post /\
    forallb Py.isspace pre = true /\ forallb Py.isspace post = true.
Proof.
  assert (H : Hpsa.cmd_exec ran_ok [b "hpssacli"] = Return (b "Smart Array P410"))
    by reflexivity.
  split; [exact H |].
  destruct (cmd_exec_output_stripped ran_ok [b "hpssacli"] _ _ eq_refl H)
    as (pre & post & H1 & H2 & H3 & _).
  exists pre, post. auto.
Defined.

End PollingInstances.

Section ProxyInstances.

Import Proxy Examples.

Local Abbreviation run :=
  (present Z 0 Z.add Z.sub tick 1 2 completing free_ok array no_text no_text
     no_str).


(** [volume_child_dependency_rm] through the proxy. *)
Lemma present_bare_type_witness :
  exists p',
    run 5%nat (b "volume_child_dependency_rm") [PStr (b "VOL_1")] fresh =
      (Raise TypeError, p') /\
    stats p' = [].
Proof.
  destruct (proj2 (present_bare_type Z 0 Z.add Z.sub tick 1 2 completing
                     free_ok array no_text no_text no_str 5
                     [PStr (b "VOL_1")] fresh)
              (PluginTest.Client 0 []) eq_refl)
    as (p' & Hrun & _ & _ & Hstat).
  exists p'. split; [exact Hrun | exact Hstat].
Defined.


End ProxyInstances.
